(** * Praxis3 DHT node: ring arithmetic, wire codec, resolver and lookup cache

    A shallow embedding of [rn-praxis/dht.c] and [dht.h].

    Conventions of the embedding:
    - C unsigned integers are values of [Z]; every store into a fixed-width
      object is written out as a reduction modulo the width ([to_dht_id],
      [to_ulong]).  The platform is LP64 with a little-endian host (x86-64
      Linux): [unsigned long] has 64 bits and [ntohs]/[ntohl] reverse bytes.
    - The globals [predecessor], [self], [successor] and [lookup_cache], the
      wall clock read by [time_ms], the datagrams handed to [sendto] and the
      text printed are the components of one [world] record that is threaded
      through every operation by the monad [M].
    - [struct peer*] values are modelled by [peer_ptr]; reading through
      [NULL] or outside [lookup_cache] ends the run with [Fault]. *)

From Stdlib Require Import ZArith Lia Bool String Ascii.
From stdpp Require Import base list.

Local Open Scope Z_scope.

(** ** Fixed-width integers *)

(** [typedef uint16_t dht_id]: the ring has [RING_SIZE] identifiers. *)
Definition RING_SIZE : Z := 65536.

(** Conversion of an [int] result to [dht_id] (what a store into a
    [const dht_id] local does). *)
Definition to_dht_id (z : Z) : Z := z mod RING_SIZE.

(** [ULONG_MAX] of <limits.h> on LP64. *)
Definition ULONG_MAX : Z := 18446744073709551615.

(** Result of an [unsigned long] operation: reduced modulo [ULONG_MAX + 1]. *)
Definition to_ulong (z : Z) : Z := z mod (ULONG_MAX + 1).

Definition is_dht_id (z : Z) : Prop := 0 <= z < RING_SIZE.
Definition is_uint8 (z : Z) : Prop := 0 <= z < 256.
Definition is_uint16 (z : Z) : Prop := 0 <= z < 65536.
Definition is_uint32 (z : Z) : Prop := 0 <= z < 4294967296.

(** ** Object representations (little-endian host) *)

(** The [n] bytes of an unsigned integer object, lowest address first. *)
Fixpoint le_bytes (n : nat) (x : Z) : list Z :=
  match n with
  | O => []
  | S k => x mod 256 :: le_bytes k (x / 256)
  end.

(** The unsigned integer stored in a run of bytes, lowest address first. *)
Fixpoint le_value (bs : list Z) : Z :=
  match bs with
  | [] => 0
  | b :: rest => b + 256 * le_value rest
  end.

(** Byte reversal of an [n]-byte unsigned integer. *)
Definition bswap (n : nat) (x : Z) : Z := le_value (rev (le_bytes n x)).

(** <arpa/inet.h> on a little-endian host. *)
Definition ntohs (x : Z) : Z := bswap 2 x.
Definition htons (x : Z) : Z := bswap 2 x.
Definition ntohl (x : Z) : Z := bswap 4 x.
Definition htonl (x : Z) : Z := bswap 4 x.

(** ** dht.h: messages and peers *)

(** The opcodes of the anonymous [enum]. *)
Definition LOOKUP : Z := 0.
Definition REPLY : Z := 1.
Definition STABILIZE : Z := 2.
Definition NOTIFY : Z := 3.
Definition JOIN : Z := 4.
Definition N_OPCODES : Z := 5.

(** [struct in_addr] of <netinet/in.h>. *)
Record in_addr := mk_in_addr { s_addr : Z }.

(** [struct __attribute__((packed)) peer]. *)
Record peer := mk_peer {
  id : Z;
  ip : in_addr;
  port : Z
}.

(** [struct __attribute__((packed)) dht_message].  The field [peer] of the
    source is [msg_peer] here, the name [peer] being taken by the struct. *)
Record dht_message := mk_dht_message {
  flags : Z;
  hash : Z;
  msg_peer : peer
}.

(** [struct sockaddr_in], the fields [peer_to_sockaddr] fills in. *)
Record sockaddr_in := mk_sockaddr_in {
  sin_family : Z;
  sin_addr : in_addr;
  sin_port : Z
}.

Definition AF_INET : Z := 2.

Definition wf_peer (p : peer) : Prop :=
  is_dht_id (id p) /\ is_uint32 (s_addr (ip p)) /\ is_uint16 (port p).

Definition wf_message (m : dht_message) : Prop :=
  is_uint8 (flags m) /\ is_dht_id (hash m) /\ wf_peer (msg_peer m).

(** [sizeof(struct peer)]: packed, 2 + 4 + 2 bytes. *)
Definition sizeof_peer : nat := 8.

(** The bytes of a [struct peer] object in memory. *)
Definition peer_bytes (p : peer) : list Z :=
  le_bytes 2 (id p) ++ le_bytes 4 (s_addr (ip p)) ++ le_bytes 2 (port p).

(** [memcmp] of <string.h> over the first [n] bytes of two objects: zero
    when they agree, otherwise the difference of the first bytes that do
    not.  Both objects have at least [n] bytes at every call site. *)
Fixpoint memcmp (a b : list Z) (n : nat) : Z :=
  match n, a, b with
  | S k, x :: a', y :: b' => if x =? y then memcmp a' b' k else x - y
  | _, _, _ => 0
  end.

(** ** dht.c: constants *)

Definition LOOKUP_CACHE_ENTRIES : nat := 30.
Definition LOOKUP_CACHE_VALIDIY_MS : Z := 2000.

(** ** dht.c: the wire codec *)

Definition dht_deserialize (msg : dht_message) : dht_message :=
  {| flags := flags msg;
     hash := ntohs (hash msg);
     msg_peer := {| id := ntohs (id (msg_peer msg));
                    ip := {| s_addr := ntohl (s_addr (ip (msg_peer msg))) |};
                    port := ntohs (port (msg_peer msg)) |} |}.

(** "Serialization is self-inverse": the source calls [dht_deserialize]. *)
Definition dht_serialize (msg : dht_message) : dht_message :=
  dht_deserialize msg.

Definition peer_to_sockaddr (p : peer) : sockaddr_in :=
  {| sin_family := AF_INET;
     sin_addr := {| s_addr := htonl (s_addr (ip p)) |};
     sin_port := htons (port p) |}.

(** ** dht.c: ring arithmetic *)

(** The ring distance from [from] to [to]: the subtraction [to - from]
    stored into a [dht_id], as [is_responsible] computes
    [distance_peer] and [distance_peer_predecessor]. *)
Definition distance (from to : Z) : Z := to_dht_id (to - from).

Definition is_responsible (peer_predecessor peer id : Z) : bool :=
  let distance_peer_predecessor := to_dht_id (peer_predecessor - id) in
  let distance_peer := to_dht_id (peer - id) in
  (peer_predecessor =? peer) || (distance_peer <? distance_peer_predecessor).

(** ** dht.c: process-wide state and the outside world *)

(** One element of the anonymous struct array [lookup_cache].  The fields
    [predecessor] and [peer] of the source are [slot_predecessor] and
    [slot_peer] here. *)
Record cache_slot := mk_cache_slot {
  entry : Z;
  slot_predecessor : Z;
  slot_peer : peer
}.

Definition zero_peer : peer := {| id := 0; ip := {| s_addr := 0 |}; port := 0 |}.
Definition zero_slot : cache_slot :=
  {| entry := 0; slot_predecessor := 0; slot_peer := zero_peer |}.

Record world := mk_world {
  (* globals of dht.c *)
  predecessor : peer;
  self : peer;
  successor : peer;
  lookup_cache : list cache_slot;
  (* CLOCK_REALTIME in milliseconds: the value the n-th call of [time_ms]
     returns, and the number of calls made so far *)
  clock : nat -> Z;
  clock_calls : nat;
  (* the socket: the value the n-th [sendto] returns, and the datagrams and
     destinations handed to [sendto] so far, oldest first *)
  sendto_status : nat -> Z;
  sent : list (dht_message * sockaddr_in);
  (* text written by [printf] and prefixes passed to [perror] *)
  stdout : list string;
  stderr : list string
}.

Definition set_lookup_cache (c : list cache_slot) (w : world) : world :=
  mk_world (predecessor w) (self w) (successor w) c (clock w) (clock_calls w)
           (sendto_status w) (sent w) (stdout w) (stderr w).

Definition set_clock_calls (n : nat) (w : world) : world :=
  mk_world (predecessor w) (self w) (successor w) (lookup_cache w) (clock w) n
           (sendto_status w) (sent w) (stdout w) (stderr w).

Definition set_sent (s : list (dht_message * sockaddr_in)) (w : world) : world :=
  mk_world (predecessor w) (self w) (successor w) (lookup_cache w) (clock w)
           (clock_calls w) (sendto_status w) s (stdout w) (stderr w).

Definition set_stdout (s : list string) (w : world) : world :=
  mk_world (predecessor w) (self w) (successor w) (lookup_cache w) (clock w)
           (clock_calls w) (sendto_status w) (sent w) s (stderr w).

Definition set_stderr (s : list string) (w : world) : world :=
  mk_world (predecessor w) (self w) (successor w) (lookup_cache w) (clock w)
           (clock_calls w) (sendto_status w) (sent w) (stdout w) s.

(** How a call ends: it returns, the process ends through [exit], or a read
    or write outside every object is attempted. *)
Inductive outcome (A : Type) : Type :=
  | Ok (a : A)
  | Exited (status : Z)
  | Fault.
Arguments Ok {A} a.
Arguments Exited {A} status.
Arguments Fault {A}.

Definition M (A : Type) : Type := world -> outcome A * world.

#[global] Instance M_ret : MRet M := fun A a w => (Ok a, w).

#[global] Instance M_bind : MBind M := fun A B k m w =>
  match m w with
  | (Ok a, w') => k a w'
  | (Exited s, w') => (Exited s, w')
  | (Fault, w') => (Fault, w')
  end.

Definition get {A : Type} (f : world -> A) : M A := fun w => (Ok (f w), w).
Definition modify (f : world -> world) : M unit := fun w => (Ok tt, f w).
Definition fault {A : Type} : M A := fun w => (Fault, w).

(** [exit(status)]. *)
Definition exit {A : Type} (status : Z) : M A := fun w => (Exited status, w).

(** [printf] of a constant string and [perror]. *)
Definition printf (s : string) : M unit :=
  modify (fun w => set_stdout (stdout w ++ [s]) w).
Definition perror (s : string) : M unit :=
  modify (fun w => set_stderr (stderr w ++ [s]) w).

(** [lookup_cache[i]] as an rvalue and as the target of an assignment. *)
Definition cache_read (i : nat) : M cache_slot := fun w =>
  match lookup_cache w !! i with
  | Some e => (Ok e, w)
  | None => (Fault, w)
  end.

Definition cache_write (i : nat) (f : cache_slot -> cache_slot) : M unit := fun w =>
  match lookup_cache w !! i with
  | Some e => (Ok tt, set_lookup_cache (<[i := f e]> (lookup_cache w)) w)
  | None => (Fault, w)
  end.

(** Pointers to [struct peer] objects. *)
Inductive peer_ptr : Type :=
  | NULL
  | addr_self                       (* &self *)
  | addr_successor                  (* &successor *)
  | addr_cache_peer (i : nat)       (* &lookup_cache[i].peer *)
  | addr_local (p : peer).          (* a peer inside a caller's message *)

Definition is_null (p : peer_ptr) : bool :=
  match p with NULL => true | _ => false end.

(** Reading the object a pointer designates. *)
Definition load (p : peer_ptr) : M peer :=
  match p with
  | NULL => fault
  | addr_self => get self
  | addr_successor => get successor
  | addr_cache_peer i => e ← cache_read i; mret (slot_peer e)
  | addr_local q => mret q
  end.

(** ** dht.c: operations *)

Definition time_ms : M Z := fun w =>
  (Ok (clock w (clock_calls w)), set_clock_calls (S (clock_calls w)) w).

Definition outdated (entry : Z) : M bool :=
  now ← time_ms;
  mret (LOOKUP_CACHE_VALIDIY_MS <=? to_ulong (now - entry)).

(** [a && b && (memcmp(a, b, sizeof(struct peer)) == 0)]: the operands of
    [&&] are evaluated left to right and only as far as needed. *)
Definition peer_cmp (a b : peer_ptr) : M bool :=
  if is_null a then mret false
  else if is_null b then mret false
  else x ← load a; y ← load b;
       mret (memcmp (peer_bytes x) (peer_bytes y) sizeof_peer =? 0).

Definition sendto (msg : dht_message) (addr : sockaddr_in) : M Z := fun w =>
  (Ok (sendto_status w (List.length (sent w))), set_sent (sent w ++ [(msg, addr)]) w).

(** [dht_send] serializes the message, derives the address and calls
    [sendto]; a failed [sendto] ends the process.  The source serializes
    the caller's buffer in place; no caller reads that buffer afterwards,
    so the message is passed by value. *)
Definition dht_send (msg : dht_message) (p : peer) : M unit :=
  let msg := dht_serialize msg in
  let addr := peer_to_sockaddr p in
  r ← sendto msg addr;
  if r =? -1 then perror "sendto";; exit 1 else mret tt.

(** The scan of [dht_responsible] over [lookup_cache], with [n] iterations
    left and the loop variable at [i]. *)
Fixpoint dht_responsible_scan (id0 : Z) (n i : nat) : M peer_ptr :=
  match n with
  | O => mret NULL
  | S n' =>
      e ← cache_read i;
      let match_ := is_responsible (slot_predecessor e) (id (slot_peer e)) id0 in
      if match_ then
        o ← outdated (entry e);
        if negb o then mret (addr_cache_peer i)
        else dht_responsible_scan id0 n' (S i)
      else dht_responsible_scan id0 n' (S i)
  end.

Definition dht_responsible (id0 : Z) : M peer_ptr :=
  pred ← get predecessor; me ← get self; succ ← get successor;
  if is_responsible (id pred) (id me) id0 then mret addr_self
  else if is_responsible (id me) (id succ) id0 then mret addr_successor
  else dht_responsible_scan id0 LOOKUP_CACHE_ENTRIES 0.

Definition process_lookup (lookup : dht_message) : M unit :=
  owner ← dht_responsible (hash lookup);
  same ← peer_cmp addr_successor owner;
  if negb same then
    succ ← get successor;
    dht_send lookup succ
  else
    me ← get self; succ ← get successor;
    let reply := {| flags := REPLY; hash := id me; msg_peer := succ |} in
    dht_send reply (msg_peer lookup).

(** The first loop of [process_reply], with [n] iterations left and the
    loop variable at [i]; the result tells whether the function returned
    from inside the loop. *)
Fixpoint process_reply_refresh (reply : dht_message) (n i : nat) : M bool :=
  match n with
  | O => mret false
  | S n' =>
      peer_match ← peer_cmp (addr_cache_peer i) (addr_local (msg_peer reply));
      e ← cache_read i;
      now ← time_ms;
      let more_recent := entry e <? now in
      if peer_match && more_recent then
        t ← time_ms;
        cache_write i (fun s => mk_cache_slot t (slot_predecessor s) (slot_peer s));;
        cache_write i (fun s => mk_cache_slot (entry s) (hash reply) (slot_peer s));;
        mret true
      else process_reply_refresh reply n' (S i)
  end.

(** The second loop of [process_reply]: [oldest_time] is compared against
    but never assigned in the loop body. *)
Fixpoint process_reply_oldest (oldest_time : Z) (n i oldest_idx : nat) : M nat :=
  match n with
  | O => mret oldest_idx
  | S n' =>
      e ← cache_read i;
      if entry e <? oldest_time
      then process_reply_oldest oldest_time n' (S i) i
      else process_reply_oldest oldest_time n' (S i) oldest_idx
  end.

Definition process_reply (reply : dht_message) : M unit :=
  returned ← process_reply_refresh reply LOOKUP_CACHE_ENTRIES 0;
  if (returned : bool) then mret tt
  else
    let oldest_time := ULONG_MAX in
    oldest_idx ← process_reply_oldest oldest_time LOOKUP_CACHE_ENTRIES 0 0;
    t ← time_ms;
    cache_write oldest_idx (fun s => mk_cache_slot t (slot_predecessor s) (slot_peer s));;
    cache_write oldest_idx (fun s => mk_cache_slot (entry s) (hash reply) (slot_peer s));;
    cache_write oldest_idx (fun s => mk_cache_slot (entry s) (slot_predecessor s) (msg_peer reply)).

Definition newline : string := String (ascii_of_nat 10) EmptyString.

Definition dht_process_message (msg : dht_message) : M unit :=
  if flags msg =? LOOKUP then process_lookup msg
  else if flags msg =? REPLY then process_reply msg
  else printf ("Received invalid DHT Message" ++ newline).

(** ** Well-formed states *)

Definition wf_slot (e : cache_slot) : Prop :=
  0 <= entry e <= ULONG_MAX /\ is_dht_id (slot_predecessor e) /\ wf_peer (slot_peer e).

Definition wf_world (w : world) : Prop :=
  wf_peer (predecessor w) /\ wf_peer (self w) /\ wf_peer (successor w) /\
  List.length (lookup_cache w) = LOOKUP_CACHE_ENTRIES /\
  Forall wf_slot (lookup_cache w).

(** Every reading of the clock from now on returns [now]. *)
Definition clock_steady (now : Z) (w : world) : Prop :=
  forall n : nat, (clock_calls w <= n)%nat -> clock w n = now.

(** ** Vocabulary of the statements *)

(** The peer a pointer designates in a state, if it designates one. *)
Definition pointee (w : world) (p : peer_ptr) : option peer :=
  match load p w with
  | (Ok x, _) => Some x
  | _ => None
  end.

(** A slot that [dht_responsible] accepts for [id0] at time [now]: its claim
    covers [id0] and the [unsigned long] difference [now - entry] is below
    the validity period. *)
Definition cache_hit (now id0 : Z) (e : cache_slot) : Prop :=
  is_responsible (slot_predecessor e) (id (slot_peer e)) id0 = true /\
  to_ulong (now - entry e) < LOOKUP_CACHE_VALIDIY_MS.

(** A slot that the first loop of [process_reply] refreshes at time [now]. *)
Definition refresh_hit (now : Z) (reply : dht_message) (e : cache_slot) : Prop :=
  slot_peer e = msg_peer reply /\ entry e < now.

(** The text [dht_process_message] prints for an opcode it does not handle. *)
Definition invalid_message_text : string :=
  ("Received invalid DHT Message" ++ newline)%string.

(** ** A concrete node *)

Definition localhost : in_addr := {| s_addr := 2130706433 |}.
Definition node_pred : peer := {| id := 100; ip := localhost; port := 4001 |}.
Definition node_self : peer := {| id := 200; ip := localhost; port := 4002 |}.
Definition node_succ : peer := {| id := 300; ip := localhost; port := 4003 |}.
Definition peer_A : peer := {| id := 1000; ip := localhost; port := 5001 |}.
Definition peer_B : peer := {| id := 2000; ip := localhost; port := 5002 |}.

(** The node right after start-up: zero-initialized cache, a clock that
    reads [now] and a socket on which every [sendto] succeeds. *)
Definition boot_world (now : Z) : world :=
  {| predecessor := node_pred; self := node_self; successor := node_succ;
     lookup_cache := replicate LOOKUP_CACHE_ENTRIES zero_slot;
     clock := fun _ => now; clock_calls := 0;
     sendto_status := fun _ => 11; sent := [];
     stdout := []; stderr := [] |}.

(** The same node with a given cache. *)
Definition world_with_cache (now : Z) (c : list cache_slot) : world :=
  set_lookup_cache c (boot_world now).

Definition reply_from (p : peer) (pred_id : Z) : dht_message :=
  {| flags := REPLY; hash := pred_id; msg_peer := p |}.

Definition lookup_for (id0 : Z) (origin : peer) : dht_message :=
  {| flags := LOOKUP; hash := id0; msg_peer := origin |}.

(** A moment of CLOCK_REALTIME, in milliseconds. *)
Definition boot_time : Z := 1700000000000.

(** A message whose opcode byte is none of the five opcodes. *)
Definition odd_message : dht_message :=
  {| flags := 200; hash := 4660;
     msg_peer := {| id := 65535; ip := {| s_addr := 3232235777 |}; port := 8080 |} |}.

(** A cache whose only entry, for [peer_A], sits in slot 3. *)
Definition cache_A_at_3 : list cache_slot :=
  <[3%nat := mk_cache_slot boot_time 900 peer_A]> (replicate LOOKUP_CACHE_ENTRIES zero_slot).

(** A cache whose only entry, for [peer_A], sits in the last slot. *)
Definition cache_A_last : list cache_slot :=
  replicate 29 zero_slot ++ [mk_cache_slot boot_time 900 peer_A].

(** ** dht.c: the remaining entry points *)

(** [sizeof(struct dht_message)]: packed, 1 + 2 + 8 bytes. *)
Definition sizeof_dht_message : nat := 11.

(** The bytes of a [struct dht_message] object in memory, and the object a
    run of bytes is read as. *)
Definition dht_message_bytes (m : dht_message) : list Z :=
  le_bytes 1 (flags m) ++ le_bytes 2 (hash m) ++ peer_bytes (msg_peer m).

Definition peer_of_bytes (bs : list Z) : peer :=
  {| id := le_value (take 2 bs);
     ip := {| s_addr := le_value (take 4 (drop 2 bs)) |};
     port := le_value (take 2 (drop 6 bs)) |}.

Definition dht_message_of_bytes (bs : list Z) : dht_message :=
  {| flags := le_value (take 1 bs);
     hash := le_value (take 2 (drop 1 bs));
     msg_peer := peer_of_bytes (drop 3 bs) |}.

(** [struct dht_message msg = {0}]. *)
Definition zero_message : dht_message :=
  {| flags := 0; hash := 0; msg_peer := zero_peer |}.

Definition EXIT_FAILURE : Z := 1.

(** [recvfrom] on a datagram socket with a buffer of [len] bytes: a datagram
    overwrites the start of the buffer with its first [len] bytes and the
    call returns how many were stored; without a datagram ([None]: the call
    fails) the buffer is untouched and the call returns -1. *)
Definition recvfrom (incoming : option (list Z)) (buf : list Z) (len : nat) : list Z * Z :=
  match incoming with
  | None => (buf, -1)
  | Some d =>
      let n := Nat.min (List.length d) len in
      (take n d ++ drop n buf, Z.of_nat n)
  end.

(** [dht_recv]: the event on the socket is an argument; the result is the
    message left in the caller's buffer together with the returned count. *)
Definition dht_recv (incoming : option (list Z)) (msg : dht_message) : M (dht_message * Z) :=
  let '(buf, result) := recvfrom incoming (dht_message_bytes msg) sizeof_dht_message in
  if result <? 0 then perror "recv";; exit EXIT_FAILURE
  else mret (dht_deserialize (dht_message_of_bytes buf), result).

Definition dht_handle_socket (incoming : option (list Z)) : M unit :=
  let msg := zero_message in
  r ← dht_recv incoming msg;
  dht_process_message (fst r).

Definition dht_lookup (id0 : Z) : M unit :=
  me ← get self; succ ← get successor;
  let msg := {| flags := LOOKUP; hash := id0; msg_peer := me |} in
  dht_send msg succ.

Definition send_join (p : peer) : M unit :=
  me ← get self;
  let join := {| flags := JOIN; hash := 0; msg_peer := me |} in
  dht_send join p.

(** The clock only returns values of [unsigned long]. *)
Definition clock_in_range (w : world) : Prop :=
  forall n : nat, 0 <= clock w n <= ULONG_MAX.

(** The ids strictly after [a] up to and including [b], going up the ring. *)
Definition in_arc (a b x : Z) : Prop :=
  if a <? b then a < x <= b else a < x \/ x <= b.

(** A second node: the successor of the first, with [peer_C] after it. *)
Definition peer_C : peer := {| id := 500; ip := localhost; port := 4005 |}.

Definition second_node (now : Z) : world :=
  {| predecessor := node_self; self := node_succ; successor := peer_C;
     lookup_cache := replicate LOOKUP_CACHE_ENTRIES zero_slot;
     clock := fun _ => now; clock_calls := 0;
     sendto_status := fun _ => 11; sent := [];
     stdout := []; stderr := [] |}.

(** A table in which only the last slot has ever been written. *)
Definition only_last_slot_used (c : list cache_slot) : Prop :=
  (forall j : nat, (j < 29)%nat -> c !! j = Some zero_slot) /\
  exists e : cache_slot, c !! 29%nat = Some e /\ entry e < ULONG_MAX.

(** * Properties *)

(** ** Byte representations *)

Lemma le_bytes_length (n : nat) (x : Z) : List.length (le_bytes n x) = n.
Proof. revert x; induction n as [|n IH]; intros x; simpl; [reflexivity | now rewrite IH]. Qed.

Lemma le_bytes_uint8 (n : nat) (x : Z) : Forall is_uint8 (le_bytes n x).
Proof.
  revert x; induction n as [|n IH]; intros x; simpl; constructor.
  - unfold is_uint8. apply Z.mod_pos_bound. lia.
  - apply IH.
Qed.

Lemma le_value_le_bytes (n : nat) (x : Z) :
  le_value (le_bytes n x) = x mod 256 ^ Z.of_nat n.
Proof.
  revert x; induction n as [|n IH]; intros x.
  - simpl. now rewrite Z.mod_1_r.
  - cbn [le_bytes le_value]. rewrite IH.
    rewrite Nat2Z.inj_succ, Z.pow_succ_r by lia.
    rewrite Z.rem_mul_r by lia. reflexivity.
Qed.

Lemma le_bytes_le_value (bs : list Z) :
  Forall is_uint8 bs -> le_bytes (List.length bs) (le_value bs) = bs.
Proof.
  induction 1 as [|b bs Hb _ IH]; [reflexivity|].
  cbn [List.length le_value le_bytes]. unfold is_uint8 in Hb.
  assert (Hm : (b + 256 * le_value bs) mod 256 = b)
    by (Z.div_mod_to_equations; lia).
  assert (Hd : (b + 256 * le_value bs) / 256 = le_value bs)
    by (Z.div_mod_to_equations; lia).
  rewrite Hm, Hd.
  now rewrite IH.
Qed.

Lemma le_bytes_inj (n : nat) (x y : Z) :
  0 <= x < 256 ^ Z.of_nat n -> 0 <= y < 256 ^ Z.of_nat n ->
  le_bytes n x = le_bytes n y -> x = y.
Proof.
  intros Hx Hy E. apply (f_equal le_value) in E.
  rewrite !le_value_le_bytes in E.
  now rewrite !Z.mod_small in E by assumption.
Qed.

Lemma le_bytes_bswap (n : nat) (x : Z) :
  le_bytes n (bswap n x) = rev (le_bytes n x).
Proof.
  unfold bswap.
  replace n with (List.length (rev (le_bytes n x))) at 1
    by (now rewrite length_rev, le_bytes_length).
  apply le_bytes_le_value. apply Forall_rev, le_bytes_uint8.
Qed.

Lemma bswap_involutive (n : nat) (x : Z) :
  0 <= x < 256 ^ Z.of_nat n -> bswap n (bswap n x) = x.
Proof.
  intros Hx. unfold bswap at 1. rewrite le_bytes_bswap, rev_involutive.
  rewrite le_value_le_bytes. now apply Z.mod_small.
Qed.

Lemma bswap_range (n : nat) (x : Z) : 0 <= bswap n x < 256 ^ Z.of_nat n.
Proof.
  assert (E : bswap n x = bswap n x mod 256 ^ Z.of_nat n).
  { rewrite <- le_value_le_bytes, le_bytes_bswap. reflexivity. }
  rewrite E. apply Z.mod_pos_bound. apply Z.pow_pos_nonneg; lia.
Qed.

Lemma ntohs_involutive (x : Z) : is_uint16 x -> ntohs (ntohs x) = x.
Proof. intros H. apply bswap_involutive. exact H. Qed.

Lemma ntohl_involutive (x : Z) : is_uint32 x -> ntohl (ntohl x) = x.
Proof. intros H. apply bswap_involutive. exact H. Qed.

(** On two bytes the reversal exchanges the high and the low byte. *)
Lemma ntohs_exchange (x : Z) : ntohs x = (x mod 256) * 256 + (x / 256) mod 256.
Proof. unfold ntohs, bswap. simpl. lia. Qed.

Lemma dht_deserialize_wf (m : dht_message) :
  is_uint8 (flags m) -> wf_message (dht_deserialize m).
Proof.
  intros Hf. unfold wf_message, wf_peer, dht_deserialize; simpl.
  repeat split; try apply Hf; try apply (bswap_range 2); apply (bswap_range 4).
Qed.

Lemma dht_deserialize_involutive (m : dht_message) :
  wf_message m -> dht_deserialize (dht_deserialize m) = m.
Proof.
  destruct m as [f h [i [a] p]].
  unfold wf_message, wf_peer, is_dht_id; simpl.
  intros (_ & Hh & Hi & Ha & Hp).
  unfold dht_deserialize; simpl.
  rewrite !ntohs_involutive, ntohl_involutive by assumption. reflexivity.
Qed.

(** ** Ring arithmetic *)

Lemma distance_unfold (from to : Z) : distance from to = (to - from) mod 65536.
Proof. reflexivity. Qed.

Lemma is_responsible_distance (peer_predecessor peer id0 : Z) :
  is_responsible peer_predecessor peer id0 =
  (peer_predecessor =? peer) || (distance id0 peer <? distance id0 peer_predecessor).
Proof. reflexivity. Qed.

(** C4: [is_responsible peer_predecessor peer id] is true exactly when
    [peer_predecessor = peer] or the ring distance from [id] to [peer],
    which is [(peer - id) mod 65536], is strictly below the ring distance
    from [id] to [peer_predecessor]; in particular [is_responsible p p id]
    is true for every [p] and [id]. *)
Theorem is_responsible_iff (peer_predecessor peer id0 : Z) :
  (is_responsible peer_predecessor peer id0 = true <->
     peer_predecessor = peer \/
     (peer - id0) mod 65536 < (peer_predecessor - id0) mod 65536)
  /\ distance id0 peer = (peer - id0) mod 65536
  /\ distance id0 peer_predecessor = (peer_predecessor - id0) mod 65536
  /\ is_responsible peer peer id0 = true.
Proof.
  split; [|split; [reflexivity | split; [reflexivity|]]].
  - unfold is_responsible, to_dht_id, RING_SIZE.
    rewrite orb_true_iff, Z.eqb_eq, Z.ltb_lt. reflexivity.
  - unfold is_responsible. now rewrite Z.eqb_refl.
Qed.

(** C8: for identifiers [a] and [b] of the ring, [distance a a = 0], and
    when [a <> b] the two distances [distance a b] and [distance b a] are
    both nonzero and add up to the ring size 65536. *)
Theorem distance_wraparound (a b : Z) :
  is_dht_id a -> is_dht_id b ->
  distance a a = 0 /\
  (a <> b ->
   distance a b + distance b a = 65536 /\
   distance a b <> 0 /\ distance b a <> 0).
Proof.
  unfold is_dht_id, distance, to_dht_id, RING_SIZE. intros Ha Hb. split.
  - now rewrite Z.sub_diag.
  - intros Hne. Z.div_mod_to_equations. lia.
Qed.

Lemma distance_wraparound_witness :
  is_dht_id 3 /\ is_dht_id 65530 /\
  distance 3 3 = 0 /\
  (3 <> 65530 ->
   distance 3 65530 + distance 65530 3 = 65536 /\
   distance 3 65530 <> 0 /\ distance 65530 3 <> 0).
Proof.
  assert (H3 : is_dht_id 3) by (unfold is_dht_id, RING_SIZE; lia).
  assert (H5 : is_dht_id 65530) by (unfold is_dht_id, RING_SIZE; lia).
  split; [exact H3 | split; [exact H5 | exact (distance_wraparound 3 65530 H3 H5)]].
Defined.

(** C10: every peer is responsible for its own identifier, whatever its
    predecessor: [is_responsible p peer peer] is true for all identifiers
    [p] and [peer]. *)
Theorem is_responsible_own_id (p peer : Z) :
  is_dht_id p -> is_dht_id peer -> is_responsible p peer peer = true.
Proof.
  unfold is_dht_id, is_responsible, to_dht_id, RING_SIZE. intros Hp Hq.
  rewrite orb_true_iff, Z.eqb_eq, Z.ltb_lt.
  destruct (Z.eq_dec p peer) as [E|N]; [now left | right].
  rewrite Z.sub_diag. Z.div_mod_to_equations. lia.
Qed.

Lemma is_responsible_own_id_witness :
  is_dht_id 40000 /\ is_dht_id 17 /\ is_responsible 40000 17 17 = true.
Proof.
  assert (Hp : is_dht_id 40000) by (unfold is_dht_id, RING_SIZE; lia).
  assert (Hq : is_dht_id 17) by (unfold is_dht_id, RING_SIZE; lia).
  split; [exact Hp | split; [exact Hq | exact (is_responsible_own_id 40000 17 Hp Hq)]].
Defined.

(** ** Wire codec *)

(** C5: on every message, whatever its opcode byte, [dht_deserialize] after
    [dht_serialize] and [dht_serialize] after [dht_deserialize] give the
    message back; the codec reverses the bytes of [hash], [peer.id],
    [peer.ip] and [peer.port] and of nothing else, the opcode byte is
    returned as it is, and being a total function it rejects no input. *)
Theorem codec_involution (m : dht_message) :
  wf_message m ->
  dht_deserialize (dht_serialize m) = m /\
  dht_serialize (dht_deserialize m) = m /\
  dht_serialize m = dht_deserialize m /\
  wf_message (dht_deserialize m) /\
  flags (dht_deserialize m) = flags m /\
  le_bytes 2 (hash (dht_deserialize m)) = rev (le_bytes 2 (hash m)) /\
  le_bytes 2 (id (msg_peer (dht_deserialize m))) = rev (le_bytes 2 (id (msg_peer m))) /\
  le_bytes 4 (s_addr (ip (msg_peer (dht_deserialize m)))) =
    rev (le_bytes 4 (s_addr (ip (msg_peer m)))) /\
  le_bytes 2 (port (msg_peer (dht_deserialize m))) = rev (le_bytes 2 (port (msg_peer m))).
Proof.
  intros Hm. unfold dht_serialize.
  split; [now apply dht_deserialize_involutive|].
  split; [now apply dht_deserialize_involutive|].
  split; [reflexivity|].
  split; [apply dht_deserialize_wf, Hm|].
  split; [reflexivity|].
  unfold dht_deserialize; cbn [hash id ip s_addr port msg_peer].
  repeat split; apply le_bytes_bswap.
Qed.

Lemma odd_message_wf : wf_message odd_message.
Proof.
  unfold wf_message, wf_peer, is_uint8, is_uint16, is_uint32, is_dht_id, RING_SIZE.
  simpl. lia.
Qed.

Lemma codec_involution_witness :
  wf_message odd_message /\
  dht_deserialize (dht_serialize odd_message) = odd_message /\
  flags (dht_deserialize odd_message) = 200.
Proof.
  split; [exact odd_message_wf|].
  pose proof (codec_involution odd_message odd_message_wf) as (H1 & _ & _ & _ & H4 & _).
  split; [exact H1 | exact H4].
Defined.

(** ** Peer comparison *)

Lemma memcmp_zero_iff (n : nat) : forall a b : list Z,
  List.length a = n -> List.length b = n -> (memcmp a b n = 0 <-> a = b).
Proof.
  induction n as [|n IH]; intros [|x a] [|y b] Ha Hb; simpl in *; try discriminate.
  - tauto.
  - injection Ha as Ha. injection Hb as Hb.
    destruct (Z.eqb_spec x y) as [E|N].
    + subst y. rewrite (IH a b Ha Hb). split; congruence.
    + split; [lia | congruence].
Qed.

Lemma peer_bytes_length (p : peer) : List.length (peer_bytes p) = sizeof_peer.
Proof. unfold peer_bytes. now rewrite !length_app, !le_bytes_length. Qed.

Lemma peer_bytes_inj (x y : peer) :
  wf_peer x -> wf_peer y -> peer_bytes x = peer_bytes y -> x = y.
Proof.
  destruct x as [xi [xa] xp], y as [yi [ya] yp].
  unfold wf_peer, is_dht_id, is_uint32, is_uint16, RING_SIZE, peer_bytes.
  cbn [id ip s_addr port]. intros (Hxi & Hxa & Hxp) (Hyi & Hya & Hyp) E.
  apply app_inj_1 in E as [E1 E]; [|now rewrite !le_bytes_length].
  apply app_inj_1 in E as [E2 E3]; [|now rewrite !le_bytes_length].
  apply le_bytes_inj in E1; [|exact Hxi|exact Hyi].
  apply le_bytes_inj in E2; [|exact Hxa|exact Hya].
  apply le_bytes_inj in E3; [|exact Hxp|exact Hyp].
  congruence.
Qed.

(** On packed peers, [memcmp] over the whole struct decides field-wise
    equality. *)
Lemma memcmp_peer (x y : peer) :
  wf_peer x -> wf_peer y ->
  (memcmp (peer_bytes x) (peer_bytes y) sizeof_peer =? 0) = true <-> x = y.
Proof.
  intros Hx Hy. rewrite Z.eqb_eq.
  rewrite (memcmp_zero_iff sizeof_peer) by apply peer_bytes_length.
  split; [now apply peer_bytes_inj | congruence].
Qed.

(** ** Running the monad *)

Lemma bind_Ok {A B : Type} (m : M A) (k : A -> M B) (w w' : world) (a : A) :
  m w = (Ok a, w') -> (m ≫= k) w = k a w'.
Proof. intros E. unfold mbind, M_bind. now rewrite E. Qed.

Lemma bind_Fault {A B : Type} (m : M A) (k : A -> M B) (w w' : world) :
  m w = (Fault, w') -> (m ≫= k) w = (Fault, w').
Proof. intros E. unfold mbind, M_bind. now rewrite E. Qed.

Lemma cache_read_Some (i : nat) (w : world) (e : cache_slot) :
  lookup_cache w !! i = Some e -> cache_read i w = (Ok e, w).
Proof. intros E. unfold cache_read. now rewrite E. Qed.

Lemma cache_write_Some (i : nat) (f : cache_slot -> cache_slot) (w : world) (e : cache_slot) :
  lookup_cache w !! i = Some e ->
  cache_write i f w = (Ok tt, set_lookup_cache (<[i := f e]> (lookup_cache w)) w).
Proof. intros E. unfold cache_write. now rewrite E. Qed.

Lemma world_eta (w : world) : set_clock_calls (clock_calls w) w = w.
Proof. now destruct w. Qed.

Lemma wf_world_slot (w : world) (i : nat) (e : cache_slot) :
  wf_world w -> lookup_cache w !! i = Some e -> wf_slot e.
Proof.
  intros (_ & _ & _ & _ & Hall) E. exact (Forall_lookup_1 _ _ _ _ Hall E).
Qed.

Lemma wf_world_lookup (w : world) (i : nat) :
  wf_world w -> (i < LOOKUP_CACHE_ENTRIES)%nat -> exists e, lookup_cache w !! i = Some e.
Proof.
  intros (_ & _ & _ & Hlen & _) Hi.
  destruct (lookup_lt_is_Some_2 (lookup_cache w) i) as [e E]; [lia | eauto].
Qed.

Lemma peer_cmp_NULL_r (a : peer_ptr) (w : world) : peer_cmp a NULL w = (Ok false, w).
Proof. unfold peer_cmp. now destruct (is_null a). Qed.

Lemma peer_cmp_NULL_l (b : peer_ptr) (w : world) : peer_cmp NULL b w = (Ok false, w).
Proof. reflexivity. Qed.

Lemma peer_cmp_slot_local (i : nat) (q : peer) (w : world) (e : cache_slot) :
  lookup_cache w !! i = Some e -> wf_peer (slot_peer e) -> wf_peer q ->
  exists b : bool,
    peer_cmp (addr_cache_peer i) (addr_local q) w = (Ok b, w) /\
    (b = true <-> slot_peer e = q).
Proof.
  intros E He Hq.
  exists (memcmp (peer_bytes (slot_peer e)) (peer_bytes q) sizeof_peer =? 0). split.
  - unfold peer_cmp, load. cbn [is_null].
    unfold mbind, M_bind, mret, M_ret. now rewrite (cache_read_Some _ _ _ E).
  - now apply memcmp_peer.
Qed.

(** ** One iteration of each loop *)

Lemma time_ms_run (w : world) :
  time_ms w = (Ok (clock w (clock_calls w)), set_clock_calls (S (clock_calls w)) w).
Proof. reflexivity. Qed.

Lemma lookup_after_write (i : nat) (x e : cache_slot) (w : world) :
  lookup_cache w !! i = Some e ->
  lookup_cache (set_lookup_cache (<[i := x]> (lookup_cache w)) w) !! i = Some x.
Proof.
  intros E. cbn [lookup_cache set_lookup_cache].
  apply list_lookup_insert_eq. eapply lookup_lt_Some, E.
Qed.

Lemma dht_responsible_scan_S (id0 : Z) (n i : nat) (w : world) :
  dht_responsible_scan id0 (S n) i w =
  match lookup_cache w !! i with
  | None => (Fault, w)
  | Some e =>
      if is_responsible (slot_predecessor e) (id (slot_peer e)) id0 then
        if LOOKUP_CACHE_VALIDIY_MS <=? to_ulong (clock w (clock_calls w) - entry e)
        then dht_responsible_scan id0 n (S i) (set_clock_calls (S (clock_calls w)) w)
        else (Ok (addr_cache_peer i), set_clock_calls (S (clock_calls w)) w)
      else dht_responsible_scan id0 n (S i) w
  end.
Proof.
  cbn [dht_responsible_scan]. unfold mbind at 1, M_bind at 1, cache_read.
  destruct (lookup_cache w !! i) as [e|]; [|reflexivity].
  destruct (is_responsible _ _ id0); [|reflexivity].
  unfold outdated, time_ms, mbind, M_bind, mret, M_ret.
  now destruct (_ <=? _).
Qed.

Lemma process_reply_refresh_S (reply : dht_message) (n i : nat) (w : world) :
  process_reply_refresh reply (S n) i w =
  match lookup_cache w !! i with
  | None => (Fault, w)
  | Some e =>
      let peer_match :=
        memcmp (peer_bytes (slot_peer e)) (peer_bytes (msg_peer reply)) sizeof_peer =? 0 in
      let more_recent := entry e <? clock w (clock_calls w) in
      if peer_match && more_recent then
        (Ok true,
         set_lookup_cache
           (<[i := mk_cache_slot (clock w (S (clock_calls w))) (hash reply) (slot_peer e)]>
              (lookup_cache w))
           (set_clock_calls (S (S (clock_calls w))) w))
      else process_reply_refresh reply n (S i) (set_clock_calls (S (clock_calls w)) w)
  end.
Proof.
  cbn [process_reply_refresh].
  destruct (lookup_cache w !! i) as [e|] eqn:E.
  - assert (Hcmp : peer_cmp (addr_cache_peer i) (addr_local (msg_peer reply)) w =
                   (Ok (memcmp (peer_bytes (slot_peer e)) (peer_bytes (msg_peer reply))
                          sizeof_peer =? 0), w)).
    { unfold peer_cmp, load. cbn [is_null]. unfold mbind, M_bind, mret, M_ret.
      now rewrite (cache_read_Some _ _ _ E). }
    rewrite (bind_Ok _ _ _ _ _ Hcmp).
    rewrite (bind_Ok _ _ _ _ _ (cache_read_Some _ _ _ E)).
    rewrite (bind_Ok _ _ _ _ _ (time_ms_run w)).
    cbv zeta. destruct (_ && _); [|reflexivity].
    rewrite (bind_Ok _ _ _ _ _ (time_ms_run _)).
    cbn [clock clock_calls set_clock_calls].
    set (w2 := set_clock_calls (S (S (clock_calls w))) w).
    assert (E2 : lookup_cache w2 !! i = Some e) by exact E.
    rewrite (bind_Ok _ _ _ _ _ (cache_write_Some _ _ _ _ E2)).
    rewrite (bind_Ok _ _ _ _ _ (cache_write_Some _ _ _ _ (lookup_after_write _ _ _ _ E2))).
    unfold mret, M_ret. f_equal.
    cbn [lookup_cache set_lookup_cache entry slot_predecessor slot_peer].
    rewrite list_insert_insert_eq. reflexivity.
  - assert (Hcmp : peer_cmp (addr_cache_peer i) (addr_local (msg_peer reply)) w = (Fault, w)).
    { unfold peer_cmp, load. cbn [is_null]. unfold mbind, M_bind, cache_read.
      now rewrite E. }
    now rewrite (bind_Fault _ _ _ _ Hcmp).
Qed.

Lemma process_reply_oldest_S (oldest_time : Z) (n i oldest_idx : nat) (w : world) :
  process_reply_oldest oldest_time (S n) i oldest_idx w =
  match lookup_cache w !! i with
  | None => (Fault, w)
  | Some e =>
      process_reply_oldest oldest_time n (S i)
        (if entry e <? oldest_time then i else oldest_idx) w
  end.
Proof.
  cbn [process_reply_oldest]. unfold mbind, M_bind, cache_read.
  destruct (lookup_cache w !! i) as [e|]; [|reflexivity].
  now destruct (_ <? _).
Qed.

(** ** The scan of [dht_responsible] *)

Lemma clock_steady_later (now : Z) (w : world) (k : nat) :
  clock_steady now w -> (clock_calls w <= k)%nat -> clock_steady now (set_clock_calls k w).
Proof. intros H Hk n Hn. cbn [clock clock_calls set_clock_calls] in *. apply H. lia. Qed.

Lemma clock_steady_now (now : Z) (w : world) :
  clock_steady now w -> clock w (clock_calls w) = now.
Proof. intros H. apply H. lia. Qed.

(** Whatever the state, the scan changes nothing but the count of clock
    readings. *)
Lemma dht_responsible_scan_frame (id0 : Z) (n : nat) :
  forall (i : nat) (w : world) (r : outcome peer_ptr) (w1 : world),
  dht_responsible_scan id0 n i w = (r, w1) ->
  exists k : nat, (clock_calls w <= k)%nat /\ w1 = set_clock_calls k w.
Proof.
  induction n as [|n IH]; intros i w r w1 E.
  - injection E as _ <-. exists (clock_calls w). now rewrite world_eta.
  - rewrite dht_responsible_scan_S in E.
    destruct (lookup_cache w !! i) as [e|].
    + destruct (is_responsible _ _ id0).
      * destruct (_ <=? _).
        -- apply IH in E as (k & Hk & ->). cbn [clock_calls set_clock_calls] in Hk.
           exists k. split; [lia | reflexivity].
        -- injection E as _ <-. exists (S (clock_calls w)). split; [lia | reflexivity].
      * now apply IH in E.
    + injection E as _ <-. exists (clock_calls w). now rewrite world_eta.
Qed.

Lemma dht_responsible_scan_steady (now id0 : Z) (n : nat) :
  forall (i : nat) (w : world),
  clock_steady now w ->
  (i + n <= List.length (lookup_cache w))%nat ->
  exists (r : peer_ptr) (k : nat),
    dht_responsible_scan id0 n i w = (Ok r, set_clock_calls k w) /\
    (clock_calls w <= k)%nat /\
    ((r = NULL /\
      forall j e, (i <= j < i + n)%nat -> lookup_cache w !! j = Some e ->
                  ~ cache_hit now id0 e) \/
     (exists j e,
        r = addr_cache_peer j /\ (i <= j < i + n)%nat /\
        lookup_cache w !! j = Some e /\ cache_hit now id0 e /\
        forall j' e', (i <= j' < j)%nat -> lookup_cache w !! j' = Some e' ->
                      ~ cache_hit now id0 e')).
Proof.
  induction n as [|n IH]; intros i w Hs Hlen.
  - exists NULL, (clock_calls w). rewrite world_eta.
    split; [reflexivity | split; [lia | left; split; [reflexivity | intros; lia]]].
  - rewrite dht_responsible_scan_S.
    destruct (lookup_lt_is_Some_2 (lookup_cache w) i) as [e E]; [lia|].
    rewrite E, (clock_steady_now now w Hs).
    assert (Hskip : ~ cache_hit now id0 e ->
      forall w', clock_steady now w' -> lookup_cache w' = lookup_cache w ->
      (exists k0, (clock_calls w <= k0)%nat /\ w' = set_clock_calls k0 w) ->
      exists r k,
        dht_responsible_scan id0 n (S i) w' = (Ok r, set_clock_calls k w) /\
        (clock_calls w <= k)%nat /\
        ((r = NULL /\
          forall j e0, (i <= j < i + S n)%nat -> lookup_cache w !! j = Some e0 ->
                       ~ cache_hit now id0 e0) \/
         (exists j e0,
            r = addr_cache_peer j /\ (i <= j < i + S n)%nat /\
            lookup_cache w !! j = Some e0 /\ cache_hit now id0 e0 /\
            forall j' e', (i <= j' < j)%nat -> lookup_cache w !! j' = Some e' ->
                          ~ cache_hit now id0 e'))).
    { intros Hno w' Hs' Hc (k0 & Hk0 & ->).
      destruct (IH (S i) _ Hs') as (r & k & Hrun & Hk & Hr); [rewrite Hc; lia|].
      cbn [clock_calls set_clock_calls lookup_cache] in Hk, Hr.
      exists r, k. split; [exact Hrun | split; [lia|]].
      destruct Hr as [[-> Hall] | (j & e0 & -> & Hj & Ej & Hhit & Hfirst)].
      - left. split; [reflexivity|]. intros j e0 Hj Ej.
        destruct (decide (j = i)) as [->|Hne].
        + rewrite E in Ej. injection Ej as <-. exact Hno.
        + apply (Hall j e0); [lia | exact Ej].
      - right. exists j, e0.
        split; [reflexivity | split; [lia | split; [exact Ej | split; [exact Hhit|]]]].
        intros j' e' Hj' Ej'.
        destruct (decide (j' = i)) as [->|Hne].
        + rewrite E in Ej'. injection Ej' as <-. exact Hno.
        + apply (Hfirst j' e'); [lia | exact Ej']. }
    destruct (is_responsible _ _ id0) eqn:Hresp.
    + destruct (Z.leb_spec LOOKUP_CACHE_VALIDIY_MS (to_ulong (now - entry e))) as [Hold|Hfresh].
      * apply Hskip.
        -- unfold cache_hit. lia.
        -- apply clock_steady_later; [exact Hs | cbn; lia].
        -- reflexivity.
        -- exists (S (clock_calls w)). split; [lia | reflexivity].
      * exists (addr_cache_peer i), (S (clock_calls w)).
        split; [reflexivity | split; [lia | right]].
        exists i, e.
        split; [reflexivity | split; [lia | split; [exact E | split; [now split|]]]].
        intros j' e' Hj'. lia.
    + apply Hskip.
      * unfold cache_hit. rewrite Hresp. intros [? _]. discriminate.
      * exact Hs.
      * reflexivity.
      * exists (clock_calls w). now rewrite world_eta.
Qed.

Lemma dht_responsible_run (id0 : Z) (w : world) :
  dht_responsible id0 w =
  if is_responsible (id (predecessor w)) (id (self w)) id0 then (Ok addr_self, w)
  else if is_responsible (id (self w)) (id (successor w)) id0 then (Ok addr_successor, w)
  else dht_responsible_scan id0 LOOKUP_CACHE_ENTRIES 0 w.
Proof.
  unfold dht_responsible, mbind, M_bind, get.
  destruct (is_responsible _ _ id0); [reflexivity|].
  now destruct (is_responsible _ _ id0).
Qed.

Lemma dht_responsible_frame (id0 : Z) (w : world) (r : outcome peer_ptr) (w1 : world) :
  dht_responsible id0 w = (r, w1) ->
  exists k : nat, (clock_calls w <= k)%nat /\ w1 = set_clock_calls k w.
Proof.
  rewrite dht_responsible_run. intros E.
  destruct (is_responsible _ _ id0); [|destruct (is_responsible _ _ id0)].
  - injection E as _ <-. exists (clock_calls w). now rewrite world_eta.
  - injection E as _ <-. exists (clock_calls w). now rewrite world_eta.
  - eapply dht_responsible_scan_frame, E.
Qed.

(** For timestamps that are not in the future the [unsigned long]
    difference is the plain one. *)
Lemma to_ulong_sub_past (now t : Z) :
  0 <= t <= now -> now <= ULONG_MAX -> to_ulong (now - t) = now - t.
Proof. intros Ht Hn. unfold to_ulong. apply Z.mod_small. lia. Qed.

(** C3: [dht_responsible id] returns [&self] if
    [is_responsible predecessor.id self.id id]; otherwise [&successor] if
    [is_responsible self.id successor.id id]; otherwise the address of the
    peer of the first slot of [lookup_cache], in table order, whose claim
    covers [id] and whose age [now - entry] (an [unsigned long] difference)
    is below 2000 ms; otherwise [NULL].  Slots of age 2000 ms or more are
    passed over, and the table itself is left as it was.  For a timestamp
    that is not in the future the age is the plain difference
    [now - entry]. *)
Theorem dht_responsible_spec (w : world) (now id0 : Z) :
  wf_world w -> clock_steady now w ->
  exists (r : peer_ptr) (w' : world),
    dht_responsible id0 w = (Ok r, w') /\
    lookup_cache w' = lookup_cache w /\
    predecessor w' = predecessor w /\ self w' = self w /\ successor w' = successor w /\
    (is_responsible (id (predecessor w)) (id (self w)) id0 = true ->
     r = addr_self /\ pointee w' r = Some (self w)) /\
    (is_responsible (id (predecessor w)) (id (self w)) id0 = false ->
     is_responsible (id (self w)) (id (successor w)) id0 = true ->
     r = addr_successor /\ pointee w' r = Some (successor w)) /\
    (is_responsible (id (predecessor w)) (id (self w)) id0 = false ->
     is_responsible (id (self w)) (id (successor w)) id0 = false ->
     (forall (i : nat) (e : cache_slot),
        lookup_cache w !! i = Some e -> cache_hit now id0 e ->
        (forall (j : nat) (e' : cache_slot),
           (j < i)%nat -> lookup_cache w !! j = Some e' -> ~ cache_hit now id0 e') ->
        r = addr_cache_peer i /\ pointee w' r = Some (slot_peer e)) /\
     ((forall (i : nat) (e : cache_slot),
         lookup_cache w !! i = Some e -> ~ cache_hit now id0 e) ->
      r = NULL)) /\
    (forall e : cache_slot,
       0 <= entry e <= now -> now <= ULONG_MAX ->
       (cache_hit now id0 e <->
        is_responsible (slot_predecessor e) (id (slot_peer e)) id0 = true /\
        now - entry e < 2000)).
Proof.
  intros Hwf Hs.
  assert (Hpast : forall e : cache_slot,
            0 <= entry e <= now -> now <= ULONG_MAX ->
            (cache_hit now id0 e <->
             is_responsible (slot_predecessor e) (id (slot_peer e)) id0 = true /\
             now - entry e < 2000)).
  { intros e He Hn. unfold cache_hit, LOOKUP_CACHE_VALIDIY_MS.
    now rewrite (to_ulong_sub_past now (entry e) He Hn). }
  rewrite dht_responsible_run.
  destruct (is_responsible (id (predecessor w)) (id (self w)) id0) eqn:H1.
  { exists addr_self, w.
    do 5 (split; [reflexivity|]).
    split; [intros _; now split|]. split; [discriminate|]. split; [discriminate | exact Hpast]. }
  destruct (is_responsible (id (self w)) (id (successor w)) id0) eqn:H2.
  { exists addr_successor, w.
    do 5 (split; [reflexivity|]).
    split; [discriminate|]. split; [intros _ _; now split|].
    split; [discriminate | exact Hpast]. }
  destruct Hwf as (_ & _ & _ & Hlen & _).
  destruct (dht_responsible_scan_steady now id0 LOOKUP_CACHE_ENTRIES 0 w Hs)
    as (r & k & Hrun & Hk & Hr); [rewrite Hlen; cbn; lia|].
  exists r, (set_clock_calls k w).
  split; [exact Hrun|]. do 4 (split; [reflexivity|]).
  split; [discriminate | split; [discriminate|]]. split; [|exact Hpast]. intros _ _. split.
  - intros i e E Hhit Hfirst.
    destruct Hr as [[-> Hall] | (j & e0 & -> & Hj & Ej & Hhit0 & Hfirst0)].
    + exfalso. apply (Hall i e); [|exact E|exact Hhit].
      apply lookup_lt_Some in E. rewrite Hlen in E. cbn. lia.
    + assert (j = i) as ->.
      { destruct (Nat.lt_trichotomy j i) as [Hlt|[Heq|Hgt]]; [|exact Heq|].
        - exfalso. exact (Hfirst j e0 Hlt Ej Hhit0).
        - exfalso. apply (Hfirst0 i e); [lia | exact E | exact Hhit]. }
      split; [reflexivity|].
      unfold pointee, load, mbind, M_bind, cache_read, mret, M_ret.
      cbn [lookup_cache set_clock_calls]. now rewrite E.
  - intros Hnone.
    destruct Hr as [[-> _] | (j & e0 & _ & _ & Ej & Hhit0 & _)]; [reflexivity|].
    exfalso. exact (Hnone j e0 Ej Hhit0).
Qed.

(** ** The loops of [process_reply] *)

Lemma refresh_hit_test (now : Z) (reply : dht_message) (e : cache_slot) :
  wf_peer (slot_peer e) -> wf_peer (msg_peer reply) ->
  (memcmp (peer_bytes (slot_peer e)) (peer_bytes (msg_peer reply)) sizeof_peer =? 0)
    && (entry e <? now) = true <-> refresh_hit now reply e.
Proof.
  intros He Hr. unfold refresh_hit.
  now rewrite andb_true_iff, (memcmp_peer _ _ He Hr), Z.ltb_lt.
Qed.

Lemma process_reply_refresh_steady (now : Z) (reply : dht_message) (n : nat) :
  forall (i : nat) (w : world),
  clock_steady now w -> wf_peer (msg_peer reply) -> Forall wf_slot (lookup_cache w) ->
  (i + n <= List.length (lookup_cache w))%nat ->
  (exists (j : nat) (e : cache_slot),
     (i <= j < i + n)%nat /\ lookup_cache w !! j = Some e /\ refresh_hit now reply e /\
     (forall j' e', (i <= j' < j)%nat -> lookup_cache w !! j' = Some e' ->
                    ~ refresh_hit now reply e') /\
     process_reply_refresh reply n i w =
     (Ok true,
      set_lookup_cache
        (<[j := mk_cache_slot now (hash reply) (slot_peer e)]> (lookup_cache w))
        (set_clock_calls (clock_calls w + (j - i) + 2) w)))
  \/
  ((forall j e, (i <= j < i + n)%nat -> lookup_cache w !! j = Some e ->
                ~ refresh_hit now reply e) /\
   process_reply_refresh reply n i w = (Ok false, set_clock_calls (clock_calls w + n) w)).
Proof.
  induction n as [|n IH]; intros i w Hs Hr Hall Hlen.
  - right. split; [intros; lia|]. cbn [process_reply_refresh]. unfold mret, M_ret.
    now rewrite Nat.add_0_r, world_eta.
  - rewrite process_reply_refresh_S.
    destruct (lookup_lt_is_Some_2 (lookup_cache w) i) as [e E]; [lia|].
    rewrite E. cbv zeta. rewrite (clock_steady_now now w Hs).
    pose proof (Forall_lookup_1 _ _ _ _ Hall E) as (_ & _ & He).
    pose proof (refresh_hit_test now reply e He Hr) as Htest.
    destruct (_ && _).
    + left. exists i, e.
      split; [lia | split; [exact E | split; [now apply Htest | split; [intros; lia|]]]].
      rewrite (Hs (S (clock_calls w))) by lia.
      now replace (clock_calls w + (i - i) + 2)%nat with (S (S (clock_calls w))) by lia.
    + assert (Hno : ~ refresh_hit now reply e) by (intros H; apply Htest in H; discriminate).
      destruct (IH (S i) (set_clock_calls (S (clock_calls w)) w))
        as [(j & e0 & Hj & Ej & Hhit & Hfirst & Hrun) | (Hnone & Hrun)].
      * apply clock_steady_later; [exact Hs | lia].
      * exact Hr.
      * exact Hall.
      * cbn [lookup_cache set_clock_calls]. lia.
      * left. exists j, e0. cbn [lookup_cache clock_calls set_clock_calls] in *.
        split; [lia | split; [exact Ej | split; [exact Hhit | split]]].
        -- intros j' e' Hj' Ej'. destruct (decide (j' = i)) as [->|Hne].
           ++ rewrite E in Ej'. injection Ej' as <-. exact Hno.
           ++ apply (Hfirst j' e'); [lia | exact Ej'].
        -- rewrite Hrun.
           now replace (S (clock_calls w) + (j - S i) + 2)%nat
             with (clock_calls w + (j - i) + 2)%nat by lia.
      * right. cbn [lookup_cache clock_calls set_clock_calls] in *. split.
        -- intros j e0 Hj Ej. destruct (decide (j = i)) as [->|Hne].
           ++ rewrite E in Ej. injection Ej as <-. exact Hno.
           ++ apply (Hnone j e0); [lia | exact Ej].
        -- rewrite Hrun.
           now replace (S (clock_calls w) + n)%nat with (clock_calls w + S n)%nat by lia.
Qed.

(** The second loop returns the last index whose timestamp is below
    [oldest_time], or the initial index when there is none. *)
Lemma process_reply_oldest_last (oldest_time : Z) (n : nat) :
  forall (i oldest_idx : nat) (w : world),
  (i + n <= List.length (lookup_cache w))%nat ->
  exists r : nat,
    process_reply_oldest oldest_time n i oldest_idx w = (Ok r, w) /\
    ((r = oldest_idx /\
      forall j e, (i <= j < i + n)%nat -> lookup_cache w !! j = Some e ->
                  oldest_time <= entry e) \/
     (exists e, (i <= r < i + n)%nat /\ lookup_cache w !! r = Some e /\
                entry e < oldest_time /\
                forall j e', (r < j < i + n)%nat -> lookup_cache w !! j = Some e' ->
                             oldest_time <= entry e')).
Proof.
  induction n as [|n IH]; intros i idx w Hlen.
  - exists idx. split; [reflexivity | left; split; [reflexivity | intros; lia]].
  - rewrite process_reply_oldest_S.
    destruct (lookup_lt_is_Some_2 (lookup_cache w) i) as [e E]; [lia|].
    rewrite E.
    destruct (IH (S i) (if entry e <? oldest_time then i else idx) w) as (r & Hrun & Hr);
      [lia|].
    exists r. split; [exact Hrun|].
    destruct Hr as [[-> Hall] | (e0 & Hj & Ej & Hlt & Hafter)].
    + destruct (Z.ltb_spec (entry e) oldest_time) as [Hlt|Hge].
      * right. exists e.
        split; [lia | split; [exact E | split; [exact Hlt|]]].
        intros j e' Hj Ej. apply (Hall j e'); [lia | exact Ej].
      * left. split; [reflexivity|]. intros j e' Hj Ej.
        destruct (decide (j = i)) as [->|Hne].
        -- rewrite E in Ej. injection Ej as <-. exact Hge.
        -- apply (Hall j e'); [lia | exact Ej].
    + right. exists e0.
      split; [lia | split; [exact Ej | split; [exact Hlt|]]].
      intros j e' Hj' Ej'. apply (Hafter j e'); [lia | exact Ej'].
Qed.

(** The refresh of the first slot that holds the REPLY's peer and an older
    timestamp, at its index. *)
Lemma process_reply_refresh_at
    (w : world) (reply : dht_message) (now : Z) (i : nat) (e : cache_slot) :
  wf_world w -> wf_message reply -> clock_steady now w ->
  lookup_cache w !! i = Some e -> refresh_hit now reply e ->
  (forall (j : nat) (e' : cache_slot),
     (j < i)%nat -> lookup_cache w !! j = Some e' -> ~ refresh_hit now reply e') ->
  let w' :=
    set_lookup_cache
      (<[i := {| entry := now; slot_predecessor := hash reply; slot_peer := slot_peer e |}]>
         (lookup_cache w))
      (set_clock_calls (clock_calls w + i + 2) w) in
  process_reply reply w = (Ok tt, w') /\
  process_reply_refresh reply LOOKUP_CACHE_ENTRIES 0 w = (Ok true, w') /\
  lookup_cache w' !! i =
    Some {| entry := now; slot_predecessor := hash reply; slot_peer := slot_peer e |} /\
  (forall j : nat, j <> i -> lookup_cache w' !! j = lookup_cache w !! j) /\
  List.length (lookup_cache w') = List.length (lookup_cache w) /\
  predecessor w' = predecessor w /\ self w' = self w /\ successor w' = successor w /\
  sent w' = sent w.
Proof.
  intros Hwf (_ & _ & Hr) Hs E Hhit Hfirst w'.
  pose proof Hwf as (_ & _ & _ & Hlen & Hall).
  assert (Hi : (i < LOOKUP_CACHE_ENTRIES)%nat)
    by (rewrite <- Hlen; eapply lookup_lt_Some, E).
  assert (Hrun : process_reply_refresh reply LOOKUP_CACHE_ENTRIES 0 w = (Ok true, w')).
  { destruct (process_reply_refresh_steady now reply LOOKUP_CACHE_ENTRIES 0 w Hs Hr Hall)
      as [(j & e0 & Hj & Ej & Hhit0 & Hfirst0 & Hrun) | (Hnone & _)]; [rewrite Hlen; lia| |].
    - assert (j = i) as ->.
      { destruct (Nat.lt_trichotomy j i) as [Hlt|[Heq|Hgt]]; [|exact Heq|].
        - exfalso. exact (Hfirst j e0 Hlt Ej Hhit0).
        - exfalso. apply (Hfirst0 i e); [lia | exact E | exact Hhit]. }
      rewrite E in Ej. injection Ej as <-. rewrite Hrun. unfold w'.
      now replace (clock_calls w + (i - 0) + 2)%nat with (clock_calls w + i + 2)%nat by lia.
    - exfalso. apply (Hnone i e); [lia | exact E | exact Hhit]. }
  split; [|split; [exact Hrun|]].
  - unfold process_reply. now rewrite (bind_Ok _ _ _ _ _ Hrun).
  - unfold w'. cbn [lookup_cache set_lookup_cache predecessor self successor sent
                    set_clock_calls].
    split; [apply list_lookup_insert_eq; lia|].
    split; [intros j Hj; now apply list_lookup_insert_ne|].
    split; [apply length_insert|]. repeat split.
Qed.

(** C6: when some slot holds the REPLY's peer and a timestamp below [now],
    [process_reply] sets the timestamp of the first such slot to [now] and
    its predecessor id to the REPLY's [hash], keeps that slot's peer, leaves
    every other slot and the three peer globals as they were, and returns
    from inside the first loop: the state it ends in is the one the first
    loop ends in, and the second loop and its writes are not run. *)
Theorem process_reply_refreshes (w : world) (reply : dht_message) (now : Z) :
  wf_world w -> wf_message reply -> clock_steady now w ->
  (exists (j : nat) (e : cache_slot),
     lookup_cache w !! j = Some e /\ refresh_hit now reply e) ->
  exists (i : nat) (e : cache_slot),
    lookup_cache w !! i = Some e /\ refresh_hit now reply e /\
    (forall (j : nat) (e' : cache_slot),
       (j < i)%nat -> lookup_cache w !! j = Some e' -> ~ refresh_hit now reply e') /\
    let w' :=
      set_lookup_cache
        (<[i := {| entry := now; slot_predecessor := hash reply; slot_peer := slot_peer e |}]>
           (lookup_cache w))
        (set_clock_calls (clock_calls w + i + 2) w) in
    process_reply reply w = (Ok tt, w') /\
    process_reply_refresh reply LOOKUP_CACHE_ENTRIES 0 w = (Ok true, w') /\
    lookup_cache w' !! i =
      Some {| entry := now; slot_predecessor := hash reply; slot_peer := slot_peer e |} /\
    (forall j : nat, j <> i -> lookup_cache w' !! j = lookup_cache w !! j) /\
    List.length (lookup_cache w') = List.length (lookup_cache w) /\
    predecessor w' = predecessor w /\ self w' = self w /\ successor w' = successor w /\
    sent w' = sent w.
Proof.
  intros Hwf Hm Hs (j0 & e0 & E0 & Hhit0).
  pose proof Hwf as (_ & _ & _ & Hlen & Hall).
  pose proof Hm as (_ & _ & Hr).
  destruct (process_reply_refresh_steady now reply LOOKUP_CACHE_ENTRIES 0 w Hs Hr Hall)
    as [(i & e & Hi & E & Hhit & Hfirst & _) | (Hnone & _)]; [rewrite Hlen; lia| |].
  - assert (Hfirst' : forall (j : nat) (e' : cache_slot),
              (j < i)%nat -> lookup_cache w !! j = Some e' -> ~ refresh_hit now reply e')
      by (intros j e' Hj; apply Hfirst; lia).
    exists i, e. split; [exact E | split; [exact Hhit | split; [exact Hfirst'|]]].
    exact (process_reply_refresh_at w reply now i e Hwf Hm Hs E Hhit Hfirst').
  - exfalso. apply (Hnone j0 e0); [|exact E0|exact Hhit0].
    apply lookup_lt_Some in E0. lia.
Qed.

(** When no slot is refreshed, [process_reply] writes the claim into the
    last slot whose timestamp is below [ULONG_MAX], whatever the other
    timestamps are. *)
Lemma process_reply_evicts_last_slot (w : world) (reply : dht_message) (now : Z) (e : cache_slot) :
  wf_world w -> wf_peer (msg_peer reply) -> clock_steady now w ->
  (forall (j : nat) (e' : cache_slot),
     lookup_cache w !! j = Some e' -> ~ refresh_hit now reply e') ->
  lookup_cache w !! 29%nat = Some e -> entry e < ULONG_MAX ->
  process_reply reply w =
  (Ok tt,
   set_lookup_cache
     (<[29%nat := {| entry := now; slot_predecessor := hash reply;
                     slot_peer := msg_peer reply |}]> (lookup_cache w))
     (set_clock_calls (clock_calls w + 31) w)).
Proof.
  intros Hwf Hr Hs Hnone E Hlt.
  pose proof Hwf as (_ & _ & _ & Hlen & Hall).
  destruct (process_reply_refresh_steady now reply LOOKUP_CACHE_ENTRIES 0 w Hs Hr Hall)
    as [(j & e0 & _ & Ej & Hhit0 & _) | (_ & Hrun)]; [rewrite Hlen; lia| |].
  { exfalso. exact (Hnone j e0 Ej Hhit0). }
  unfold process_reply. rewrite (bind_Ok _ _ _ _ _ Hrun). cbv zeta.
  set (w1 := set_clock_calls (clock_calls w + LOOKUP_CACHE_ENTRIES) w).
  destruct (process_reply_oldest_last ULONG_MAX LOOKUP_CACHE_ENTRIES 0 0 w1)
    as (r & Hold & Hlast); [unfold w1; cbn [lookup_cache set_clock_calls]; rewrite Hlen; lia|].
  assert (r = 29%nat) as ->.
  { unfold w1 in Hlast. cbn [lookup_cache set_clock_calls] in Hlast.
    destruct Hlast as [[_ Hge] | (e1 & Hr1 & _ & _ & Hafter)].
    - assert (ULONG_MAX <= entry e)
        by (apply (Hge 29%nat e); [unfold LOOKUP_CACHE_ENTRIES; lia | exact E]).
      lia.
    - destruct (decide (r = 29%nat)) as [->|Hne]; [reflexivity|].
      unfold LOOKUP_CACHE_ENTRIES in Hr1, Hafter.
      assert (ULONG_MAX <= entry e) by (apply (Hafter 29%nat e); [lia | exact E]).
      lia. }
  rewrite (bind_Ok _ _ _ _ _ Hold).
  rewrite (bind_Ok _ _ _ _ _ (time_ms_run w1)).
  assert (Hnow : clock w1 (clock_calls w1) = now).
  { unfold w1. cbn [clock clock_calls set_clock_calls]. apply Hs. lia. }
  rewrite Hnow.
  set (w2 := set_clock_calls (S (clock_calls w1)) w1).
  assert (E2 : lookup_cache w2 !! 29%nat = Some e) by exact E.
  rewrite (bind_Ok _ _ _ _ _ (cache_write_Some _ _ _ _ E2)).
  rewrite (bind_Ok _ _ _ _ _ (cache_write_Some _ _ _ _ (lookup_after_write _ _ _ _ E2))).
  set (w3 := set_lookup_cache _ w2).
  assert (E3 : lookup_cache w3 !! 29%nat = Some (mk_cache_slot now (slot_predecessor e) (slot_peer e))).
  { unfold w3. eapply lookup_after_write, E2. }
  set (w4 := set_lookup_cache _ w3).
  assert (E4 : lookup_cache w4 !! 29%nat =
               Some (mk_cache_slot now (hash reply) (slot_peer e))).
  { unfold w4. eapply lookup_after_write, E3. }
  rewrite (cache_write_Some _ _ _ _ E4). f_equal.
  unfold w4, w3, w2, w1.
  cbn [lookup_cache set_lookup_cache set_clock_calls clock_calls entry slot_predecessor
       slot_peer predecessor self successor clock sendto_status sent stdout stderr].
  rewrite !list_insert_insert_eq.
  now replace (S (clock_calls w + LOOKUP_CACHE_ENTRIES)) with (clock_calls w + 31)%nat
    by (unfold LOOKUP_CACHE_ENTRIES; lia).
Qed.

(** ** Message processing *)

Lemma dht_send_sent (msg : dht_message) (p : peer) (w : world) :
  fst (dht_send msg p w) =
    (if sendto_status w (List.length (sent w)) =? -1 then Exited 1 else Ok tt) /\
  sent (snd (dht_send msg p w)) = sent w ++ [(dht_serialize msg, peer_to_sockaddr p)].
Proof.
  unfold dht_send, sendto, perror, modify, exit, mbind, M_bind, mret, M_ret.
  now destruct (_ =? -1).
Qed.

Lemma dht_responsible_total (id0 : Z) (w : world) :
  wf_world w ->
  exists (r : peer_ptr) (k : nat),
    dht_responsible id0 w = (Ok r, set_clock_calls k w) /\
    (r = NULL \/ exists x, pointee (set_clock_calls k w) r = Some x /\ wf_peer x).
Proof.
  intros Hwf. pose proof Hwf as (_ & Hself & Hsucc & Hlen & Hall).
  rewrite dht_responsible_run.
  destruct (is_responsible _ _ id0).
  { exists addr_self, (clock_calls w). rewrite world_eta. eauto. }
  destruct (is_responsible _ _ id0).
  { exists addr_successor, (clock_calls w). rewrite world_eta. eauto. }
  assert (Hgen : forall n i w0, lookup_cache w0 = lookup_cache w ->
            (i + n <= LOOKUP_CACHE_ENTRIES)%nat ->
            exists r k, dht_responsible_scan id0 n i w0 = (Ok r, set_clock_calls k w0) /\
              (r = NULL \/ exists j e, r = addr_cache_peer j /\ lookup_cache w !! j = Some e)).
  { induction n as [|n IH]; intros i w0 Hc Hn.
    - exists NULL, (clock_calls w0). rewrite world_eta. eauto.
    - rewrite dht_responsible_scan_S.
      destruct (lookup_lt_is_Some_2 (lookup_cache w0) i) as [e E]; [rewrite Hc; lia|].
      rewrite E.
      destruct (is_responsible _ _ id0); [destruct (_ <=? _)|].
      + destruct (IH (S i) (set_clock_calls (S (clock_calls w0)) w0)) as (r & k & Hrun & Hr);
          [exact Hc | lia |].
        exists r, k. split; [exact Hrun | exact Hr].
      + exists (addr_cache_peer i), (S (clock_calls w0)). split; [reflexivity|].
        right. exists i, e. split; [reflexivity | now rewrite <- Hc].
      + exact (IH (S i) w0 Hc ltac:(lia)). }
  destruct (Hgen LOOKUP_CACHE_ENTRIES 0%nat w eq_refl ltac:(lia)) as (r & k & Hrun & Hr).
  exists r, k. split; [exact Hrun|].
  destruct Hr as [->|(j & e & -> & E)]; [now left | right].
  exists (slot_peer e). split.
  - unfold pointee, load, mbind, M_bind, cache_read, mret, M_ret.
    cbn [lookup_cache set_clock_calls]. now rewrite E.
  - now destruct (Forall_lookup_1 _ _ _ _ Hall E) as (_ & _ & ?).
Qed.

Lemma peer_cmp_successor (owner : peer_ptr) (w : world) (x : peer) :
  pointee w owner = Some x -> wf_peer x -> wf_peer (successor w) ->
  exists b : bool,
    peer_cmp addr_successor owner w = (Ok b, w) /\ (b = true <-> x = successor w).
Proof.
  intros Hp Hx Hs.
  exists (memcmp (peer_bytes (successor w)) (peer_bytes x) sizeof_peer =? 0). split.
  - unfold pointee in Hp. unfold peer_cmp. cbn [is_null].
    destruct owner as [| | |j|q]; cbn [is_null load] in *.
    + discriminate Hp.
    + unfold get in Hp. injection Hp as <-. reflexivity.
    + unfold get in Hp. injection Hp as <-. reflexivity.
    + unfold mbind, M_bind, cache_read, get, mret, M_ret in *.
      destruct (lookup_cache w !! j); [|discriminate Hp]. now injection Hp as <-.
    + unfold mret, M_ret in Hp. injection Hp as <-. reflexivity.
  - rewrite (memcmp_peer _ _ Hs Hx). split; congruence.
Qed.

Lemma process_lookup_run (lookup : dht_message) (w w1 : world) (owner : peer_ptr) (same : bool) :
  dht_responsible (hash lookup) w = (Ok owner, w1) ->
  peer_cmp addr_successor owner w1 = (Ok same, w1) ->
  process_lookup lookup w =
  if same
  then dht_send {| flags := REPLY; hash := id (self w1); msg_peer := successor w1 |}
         (msg_peer lookup) w1
  else dht_send lookup (successor w1) w1.
Proof.
  intros Hr Hc. unfold process_lookup.
  rewrite (bind_Ok _ _ _ _ _ Hr), (bind_Ok _ _ _ _ _ Hc).
  now destruct same.
Qed.

(** C2: for a LOOKUP, if the peer that [dht_responsible] resolves for the
    message's [hash] equals [successor] field by field, one datagram goes to
    the originator [lookup.peer]: the serialized REPLY with
    [hash = self.id] and [peer = successor]; otherwise one datagram goes to
    [successor]: the serialized LOOKUP itself, which deserializes to the
    message as it came in. *)
Theorem process_lookup_spec (w : world) (lookup : dht_message) :
  wf_world w -> wf_message lookup ->
  exists (owner : peer_ptr) (w1 : world),
    dht_responsible (hash lookup) w = (Ok owner, w1) /\
    let reply := {| flags := REPLY; hash := id (self w); msg_peer := successor w |} in
    let w2 := snd (process_lookup lookup w) in
    fst (process_lookup lookup w) <> Fault /\
    (pointee w1 owner = Some (successor w) ->
     sent w2 = sent w ++ [(dht_serialize reply, peer_to_sockaddr (msg_peer lookup))] /\
     dht_deserialize (dht_serialize reply) = reply) /\
    (pointee w1 owner <> Some (successor w) ->
     sent w2 = sent w ++ [(dht_serialize lookup, peer_to_sockaddr (successor w))] /\
     dht_deserialize (dht_serialize lookup) = lookup).
Proof.
  intros Hwf Hm. pose proof Hwf as (_ & Hself & Hsucc & _).
  destruct (dht_responsible_total (hash lookup) w Hwf) as (owner & k & Hrun & Hown).
  exists owner, (set_clock_calls k w). split; [exact Hrun|]. cbv zeta.
  assert (Hreply : wf_message {| flags := REPLY; hash := id (self w); msg_peer := successor w |}).
  { unfold wf_message, is_uint8, REPLY. cbn [flags hash msg_peer].
    split; [lia | split; [apply Hself | exact Hsucc]]. }
  assert (Hcmp : exists same : bool,
            peer_cmp addr_successor owner (set_clock_calls k w) = (Ok same, set_clock_calls k w) /\
            (same = true <-> pointee (set_clock_calls k w) owner = Some (successor w))).
  { destruct Hown as [->|(x & Hp & Hx)].
    - exists false. split; [apply peer_cmp_NULL_r|]. split; discriminate.
    - destruct (peer_cmp_successor owner (set_clock_calls k w) x Hp Hx Hsucc) as (b & Hb & Hiff).
      exists b. split; [exact Hb|]. rewrite Hp, Hiff.
      cbn [successor set_clock_calls]. split; congruence. }
  destruct Hcmp as (same & Hcmp & Hiff).
  rewrite (process_lookup_run lookup w _ owner same Hrun Hcmp).
  cbn [self successor set_clock_calls].
  destruct same.
  - destruct (dht_send_sent {| flags := REPLY; hash := id (self w); msg_peer := successor w |}
                (msg_peer lookup) (set_clock_calls k w)) as (Hfst & Hsent).
    split; [rewrite Hfst; now destruct (_ =? -1)|]. split.
    + intros _. split; [exact Hsent|]. exact (dht_deserialize_involutive _ Hreply).
    + intros Hne. exfalso. apply Hne, Hiff. reflexivity.
  - destruct (dht_send_sent lookup (successor w) (set_clock_calls k w)) as (Hfst & Hsent).
    split; [rewrite Hfst; now destruct (_ =? -1)|]. split.
    + intros Heq. apply Hiff in Heq. discriminate.
    + intros _. split; [exact Hsent|]. exact (dht_deserialize_involutive _ Hm).
Qed.

(** C9: when [dht_responsible] returns [NULL], [process_lookup] still runs
    to its end without reading through the null pointer and hands the
    serialized LOOKUP to [sendto] for [successor]: [peer_cmp] answers
    [false] for a [NULL] argument before any read takes place (a read
    through [NULL] would end the run with [Fault]). *)
Theorem process_lookup_unknown_owner (w : world) (lookup : dht_message) (w1 : world) :
  dht_responsible (hash lookup) w = (Ok NULL, w1) ->
  (forall (a : peer_ptr) (w0 : world),
     peer_cmp a NULL w0 = (Ok false, w0) /\ peer_cmp NULL a w0 = (Ok false, w0)) /\
  load NULL w1 = (Fault, w1) /\
  fst (process_lookup lookup w) =
    (if sendto_status w (List.length (sent w)) =? -1 then Exited 1 else Ok tt) /\
  fst (process_lookup lookup w) <> Fault /\
  sent (snd (process_lookup lookup w)) =
    sent w ++ [(dht_serialize lookup, peer_to_sockaddr (successor w))].
Proof.
  intros Hrun.
  split; [intros a w0; split; [apply peer_cmp_NULL_r | apply peer_cmp_NULL_l]|].
  split; [reflexivity|].
  rewrite (process_lookup_run lookup w w1 NULL false Hrun (peer_cmp_NULL_r _ _)).
  destruct (dht_responsible_frame _ _ _ _ Hrun) as (k & _ & ->).
  destruct (dht_send_sent lookup (successor w) (set_clock_calls k w)) as (Hfst & Hsent).
  cbn [successor sent sendto_status set_clock_calls] in *.
  split; [exact Hfst|]. split; [rewrite Hfst; now destruct (_ =? -1) | exact Hsent].
Qed.

(** C7: a message whose opcode is neither LOOKUP nor REPLY (STABILIZE,
    NOTIFY, JOIN or any other byte) makes [dht_process_message] print its
    complaint and return: nothing is sent, and the cache and the peers
    [predecessor], [self] and [successor] stay as they were. *)
Theorem invalid_opcode_dropped (w : world) (msg : dht_message) :
  flags msg <> LOOKUP -> flags msg <> REPLY ->
  let w' := snd (dht_process_message msg w) in
  dht_process_message msg w = (Ok tt, set_stdout (stdout w ++ [invalid_message_text]) w) /\
  sent w' = sent w /\ lookup_cache w' = lookup_cache w /\
  predecessor w' = predecessor w /\ self w' = self w /\ successor w' = successor w.
Proof.
  intros Hl Hr. unfold dht_process_message.
  destruct (Z.eqb_spec (flags msg) LOOKUP) as [E|_]; [contradiction|].
  destruct (Z.eqb_spec (flags msg) REPLY) as [E|_]; [contradiction|].
  repeat split.
Qed.

(** ** The eviction pass on concrete tables *)

(** C1 (the code departs from it): the cache holds one live entry, for
    [peer_A], in slot 29 and 29 never-used slots of timestamp 0.  A REPLY
    from [peer_B] does not go to a slot of smallest timestamp: it replaces
    the entry of [peer_A], and slots 0 to 28 stay empty.  Starting from the
    zero-initialized cache, REPLYs from the two peers therefore end in the
    same slot. *)
Theorem eviction_overwrites_last_slot :
  (forall j e, cache_A_last !! j = Some e ->
               ~ refresh_hit (boot_time + 1000) (reply_from peer_B 1900) e) /\
  cache_A_last !! 0%nat = Some zero_slot /\
  lookup_cache
    (snd (process_reply (reply_from peer_B 1900)
            (world_with_cache (boot_time + 1000) cache_A_last))) =
    replicate 29 zero_slot ++ [mk_cache_slot (boot_time + 1000) 1900 peer_B] /\
  lookup_cache (snd (process_reply (reply_from peer_A 900) (boot_world boot_time))) =
    cache_A_last /\
  lookup_cache
    (snd (process_reply (reply_from peer_B 1900)
            (snd (process_reply (reply_from peer_A 900) (boot_world boot_time))))) =
    replicate 29 zero_slot ++ [mk_cache_slot boot_time 1900 peer_B].
Proof.
  split; [|repeat split; vm_compute; reflexivity].
  intros j e E [Hp _]. apply list_elem_of_lookup_2 in E. unfold cache_A_last in E.
  rewrite elem_of_app, elem_of_replicate, list_elem_of_singleton in E.
  destruct E as [[-> _]| ->]; discriminate Hp.
Qed.

(** ** The concrete node is well formed *)

Lemma zero_slot_wf : wf_slot zero_slot.
Proof.
  unfold wf_slot, wf_peer, is_dht_id, is_uint32, is_uint16, RING_SIZE, ULONG_MAX.
  simpl. lia.
Qed.

Lemma node_peers_wf :
  wf_peer node_pred /\ wf_peer node_self /\ wf_peer node_succ /\
  wf_peer peer_A /\ wf_peer peer_B.
Proof.
  unfold wf_peer, is_dht_id, is_uint32, is_uint16, RING_SIZE. simpl. lia.
Qed.

Lemma world_with_cache_wf (now : Z) (c : list cache_slot) :
  List.length c = LOOKUP_CACHE_ENTRIES -> Forall wf_slot c ->
  wf_world (world_with_cache now c).
Proof.
  intros Hlen Hall. destruct node_peers_wf as (Hp & Hs & Hn & _).
  unfold wf_world. cbn [world_with_cache boot_world set_lookup_cache predecessor self
                        successor lookup_cache].
  auto.
Qed.

Lemma boot_world_wf (now : Z) : wf_world (boot_world now).
Proof.
  apply (world_with_cache_wf now (replicate LOOKUP_CACHE_ENTRIES zero_slot)).
  - apply length_replicate.
  - apply Forall_replicate, zero_slot_wf.
Qed.

Lemma world_with_cache_steady (now : Z) (c : list cache_slot) :
  clock_steady now (world_with_cache now c).
Proof. intros n _. reflexivity. Qed.

Lemma boot_world_steady (now : Z) : clock_steady now (boot_world now).
Proof. intros n _. reflexivity. Qed.

Lemma cache_A_at_3_wf : wf_world (world_with_cache (boot_time + 500) cache_A_at_3).
Proof.
  apply world_with_cache_wf.
  - unfold cache_A_at_3. now rewrite length_insert, length_replicate.
  - unfold cache_A_at_3. apply Forall_insert.
    + apply Forall_replicate, zero_slot_wf.
    + destruct node_peers_wf as (_ & _ & _ & Ha & _).
      unfold wf_slot, is_dht_id, RING_SIZE, ULONG_MAX, boot_time. cbn [entry slot_predecessor slot_peer].
      split; [lia | split; [lia | exact Ha]].
Qed.

Lemma reply_from_wf (p : peer) (h : Z) : wf_peer p -> is_dht_id h -> wf_message (reply_from p h).
Proof. intros Hp Hh. unfold wf_message, is_uint8, reply_from, REPLY. simpl. split; [lia | tauto]. Qed.

Lemma lookup_for_wf (h : Z) (p : peer) : wf_peer p -> is_dht_id h -> wf_message (lookup_for h p).
Proof. intros Hp Hh. unfold wf_message, is_uint8, lookup_for, LOOKUP. simpl. split; [lia | tauto]. Qed.

(** ** The statements at the concrete node *)

Lemma dht_responsible_spec_witness :
  wf_world (world_with_cache (boot_time + 500) cache_A_at_3) /\
  clock_steady (boot_time + 500) (world_with_cache (boot_time + 500) cache_A_at_3) /\
  exists (r : peer_ptr) (w' : world),
    dht_responsible 950 (world_with_cache (boot_time + 500) cache_A_at_3) = (Ok r, w') /\
    lookup_cache w' = cache_A_at_3.
Proof.
  split; [exact cache_A_at_3_wf | split; [apply world_with_cache_steady|]].
  destruct (dht_responsible_spec _ (boot_time + 500) 950 cache_A_at_3_wf
              (world_with_cache_steady _ _)) as (r & w' & Hrun & Hc & _).
  exists r, w'. split; [exact Hrun | exact Hc].
Defined.

Lemma cache_A_at_3_hit :
  exists (j : nat) (e : cache_slot),
    lookup_cache (world_with_cache (boot_time + 500) cache_A_at_3) !! j = Some e /\
    refresh_hit (boot_time + 500) (reply_from peer_A 950) e.
Proof.
  exists 3%nat, (mk_cache_slot boot_time 900 peer_A).
  split; [reflexivity | split; [reflexivity | unfold boot_time; simpl; lia]].
Qed.

Lemma process_reply_refreshes_witness :
  wf_world (world_with_cache (boot_time + 500) cache_A_at_3) /\
  wf_message (reply_from peer_A 950) /\
  clock_steady (boot_time + 500) (world_with_cache (boot_time + 500) cache_A_at_3) /\
  exists (i : nat) (e : cache_slot),
    cache_A_at_3 !! i = Some e /\
    process_reply (reply_from peer_A 950) (world_with_cache (boot_time + 500) cache_A_at_3) =
    (Ok tt,
     set_lookup_cache
       (<[i := mk_cache_slot (boot_time + 500) 950 (slot_peer e)]> cache_A_at_3)
       (set_clock_calls (i + 2) (world_with_cache (boot_time + 500) cache_A_at_3))).
Proof.
  assert (Hm : wf_message (reply_from peer_A 950)).
  { destruct node_peers_wf as (_ & _ & _ & Ha & _).
    apply reply_from_wf; [exact Ha | unfold is_dht_id, RING_SIZE; lia]. }
  split; [exact cache_A_at_3_wf | split; [exact Hm | split; [apply world_with_cache_steady|]]].
  destruct (process_reply_refreshes
              (world_with_cache (boot_time + 500) cache_A_at_3)
              (reply_from peer_A 950) (boot_time + 500)
              cache_A_at_3_wf Hm (world_with_cache_steady _ _) cache_A_at_3_hit)
    as (i & e & E & _ & _ & Hrun & _).
  exists i, e. split; [exact E | exact Hrun].
Defined.

Lemma invalid_opcode_dropped_witness :
  flags odd_message <> LOOKUP /\ flags odd_message <> REPLY /\
  dht_process_message odd_message (boot_world boot_time) =
  (Ok tt, set_stdout [invalid_message_text] (boot_world boot_time)).
Proof.
  assert (Hl : flags odd_message <> LOOKUP) by discriminate.
  assert (Hr : flags odd_message <> REPLY) by discriminate.
  split; [exact Hl | split; [exact Hr|]].
  exact (proj1 (invalid_opcode_dropped (boot_world boot_time) odd_message Hl Hr)).
Defined.

Lemma process_lookup_spec_witness :
  wf_world (boot_world boot_time) /\ wf_message (lookup_for 250 peer_A) /\
  exists (owner : peer_ptr) (w1 : world),
    dht_responsible 250 (boot_world boot_time) = (Ok owner, w1) /\
    fst (process_lookup (lookup_for 250 peer_A) (boot_world boot_time)) <> Fault.
Proof.
  assert (Hm : wf_message (lookup_for 250 peer_A)).
  { destruct node_peers_wf as (_ & _ & _ & Ha & _).
    apply lookup_for_wf; [exact Ha | unfold is_dht_id, RING_SIZE; lia]. }
  split; [apply boot_world_wf | split; [exact Hm|]].
  destruct (process_lookup_spec (boot_world boot_time) (lookup_for 250 peer_A)
              (boot_world_wf _) Hm) as (owner & w1 & Hrun & Hok & _).
  exists owner, w1. split; [exact Hrun | exact Hok].
Defined.

Lemma process_lookup_unknown_owner_witness :
  dht_responsible 400 (boot_world boot_time) =
    (Ok NULL, set_clock_calls 30 (boot_world boot_time)) /\
  process_lookup (lookup_for 400 peer_A) (boot_world boot_time) =
    (Ok tt, set_sent [(dht_serialize (lookup_for 400 peer_A), peer_to_sockaddr node_succ)]
              (set_clock_calls 30 (boot_world boot_time))) /\
  sent (snd (process_lookup (lookup_for 400 peer_A) (boot_world boot_time))) =
    [(dht_serialize (lookup_for 400 peer_A), peer_to_sockaddr node_succ)].
Proof.
  assert (Hrun : dht_responsible (hash (lookup_for 400 peer_A)) (boot_world boot_time) =
                 (Ok NULL, set_clock_calls 30 (boot_world boot_time)))
    by (vm_compute; reflexivity).
  split; [exact Hrun | split; [vm_compute; reflexivity|]].
  exact (proj2 (proj2 (proj2 (proj2
    (process_lookup_unknown_owner (boot_world boot_time) (lookup_for 400 peer_A) _ Hrun))))).
Defined.

(** * Further properties of the code *)

(** ** Ring arithmetic *)

(** X1: for identifiers of the ring, [is_responsible peer_predecessor peer id]
    holds exactly when [id] lies on the arc that starts just after
    [peer_predecessor] and ends at [peer], going up the ring and wrapping
    at 65536; the arc is the whole ring when the two ends coincide. *)
Theorem is_responsible_arc (peer_predecessor peer id0 : Z) :
  is_dht_id peer_predecessor -> is_dht_id peer -> is_dht_id id0 ->
  (is_responsible peer_predecessor peer id0 = true <-> in_arc peer_predecessor peer id0).
Proof.
  unfold is_dht_id, is_responsible, in_arc, to_dht_id, RING_SIZE. intros Hp Hq Hi.
  rewrite orb_true_iff, Z.eqb_eq, Z.ltb_lt.
  destruct (Z.ltb_spec peer_predecessor peer) as [Hlt|Hge];
    Z.div_mod_to_equations; lia.
Qed.

Lemma is_responsible_arc_witness :
  is_dht_id 65000 /\ is_dht_id 100 /\ is_dht_id 65500 /\
  (is_responsible 65000 100 65500 = true <-> in_arc 65000 100 65500).
Proof.
  assert (H1 : is_dht_id 65000) by (unfold is_dht_id, RING_SIZE; lia).
  assert (H2 : is_dht_id 100) by (unfold is_dht_id, RING_SIZE; lia).
  assert (H3 : is_dht_id 65500) by (unfold is_dht_id, RING_SIZE; lia).
  split; [exact H1 | split; [exact H2 | split; [exact H3|]]].
  exact (is_responsible_arc 65000 100 65500 H1 H2 H3).
Defined.

(** X2: two distinct identifiers [a] and [b] split the ring: every
    identifier is covered by exactly one of the claims "[b] with predecessor
    [a]" and "[a] with predecessor [b]", and the predecessor's own
    identifier always falls to the predecessor. *)
Theorem is_responsible_two_peers (a b id0 : Z) :
  is_dht_id a -> is_dht_id b -> is_dht_id id0 -> a <> b ->
  is_responsible a b id0 = negb (is_responsible b a id0) /\
  is_responsible a b a = false.
Proof.
  unfold is_dht_id, is_responsible, to_dht_id, RING_SIZE. intros Ha Hb Hi Hne.
  assert (Eab : (a =? b) = false) by (apply Z.eqb_neq; lia).
  assert (Eba : (b =? a) = false) by (apply Z.eqb_neq; lia).
  rewrite Eab, Eba. cbn [orb]. split.
  - destruct (Z.ltb_spec ((b - id0) mod 65536) ((a - id0) mod 65536));
      destruct (Z.ltb_spec ((a - id0) mod 65536) ((b - id0) mod 65536));
      try reflexivity; exfalso; Z.div_mod_to_equations; lia.
  - apply Z.ltb_ge. rewrite Z.sub_diag. Z.div_mod_to_equations. lia.
Qed.

Lemma is_responsible_two_peers_witness :
  is_dht_id 200 /\ is_dht_id 300 /\ is_dht_id 250 /\ 200 <> 300 /\
  is_responsible 200 300 250 = negb (is_responsible 300 200 250).
Proof.
  assert (H1 : is_dht_id 200) by (unfold is_dht_id, RING_SIZE; lia).
  assert (H2 : is_dht_id 300) by (unfold is_dht_id, RING_SIZE; lia).
  assert (H3 : is_dht_id 250) by (unfold is_dht_id, RING_SIZE; lia).
  assert (H4 : 200 <> 300) by lia.
  split; [exact H1 | split; [exact H2 | split; [exact H3 | split; [exact H4|]]]].
  exact (proj1 (is_responsible_two_peers 200 300 250 H1 H2 H3 H4)).
Defined.

(** ** Staleness *)

(** X3: [outdated] reads the clock once.  For a timestamp [t] that is not
    in the future it answers by the age [now - t]: false below 2000 ms,
    true from 2000 ms on.  A timestamp ahead of the clock is reported as
    outdated, the [unsigned long] difference wrapping to a large value. *)
Theorem outdated_by_age (w : world) (t : Z) :
  0 <= t <= ULONG_MAX -> 0 <= clock w (clock_calls w) <= ULONG_MAX ->
  let now := clock w (clock_calls w) in
  exists b : bool,
    outdated t w = (Ok b, set_clock_calls (S (clock_calls w)) w) /\
    (t <= now -> (b = false <-> now - t < 2000)) /\
    (now < t -> t - now <= ULONG_MAX - 1999 -> b = true).
Proof.
  intros Ht Hn now.
  exists (LOOKUP_CACHE_VALIDIY_MS <=? to_ulong (now - t)).
  split; [reflexivity|]. unfold LOOKUP_CACHE_VALIDIY_MS, to_ulong, ULONG_MAX in *.
  fold now in Hn. split.
  - intros Hle. rewrite Z.leb_gt, Z.mod_small by lia. reflexivity.
  - intros Hlt Hfar. apply Z.leb_le. Z.div_mod_to_equations. lia.
Qed.

Lemma outdated_by_age_witness :
  0 <= boot_time + 5 <= ULONG_MAX /\
  exists b : bool,
    outdated (boot_time + 5) (boot_world boot_time) =
      (Ok b, set_clock_calls 1 (boot_world boot_time)) /\ b = true.
Proof.
  assert (Ht : 0 <= boot_time + 5 <= ULONG_MAX) by (unfold boot_time, ULONG_MAX; lia).
  assert (Hn : 0 <= clock (boot_world boot_time) (clock_calls (boot_world boot_time)) <= ULONG_MAX)
    by (unfold boot_time, ULONG_MAX; simpl; lia).
  split; [exact Ht|].
  destruct (outdated_by_age (boot_world boot_time) (boot_time + 5) Ht Hn) as (b & Hrun & _ & Hb).
  exists b. split; [exact Hrun|].
  apply Hb; unfold boot_time, ULONG_MAX; simpl; lia.
Defined.

(** ** The wire format *)

Lemma dht_message_bytes_length (m : dht_message) :
  List.length (dht_message_bytes m) = sizeof_dht_message.
Proof.
  unfold dht_message_bytes. now rewrite !length_app, !le_bytes_length, peer_bytes_length.
Qed.

(** X4: the 11 bytes [dht_send] hands to [sendto] are the opcode byte
    followed by [hash], [peer.id], [peer.ip] and [peer.port], each with its
    most significant byte first. *)
Theorem wire_format (m : dht_message) :
  wf_message m ->
  dht_message_bytes (dht_serialize m) =
  [ flags m;
    hash m / 256; hash m mod 256;
    id (msg_peer m) / 256; id (msg_peer m) mod 256;
    s_addr (ip (msg_peer m)) / 16777216; (s_addr (ip (msg_peer m)) / 65536) mod 256;
    (s_addr (ip (msg_peer m)) / 256) mod 256; s_addr (ip (msg_peer m)) mod 256;
    port (msg_peer m) / 256; port (msg_peer m) mod 256 ].
Proof.
  destruct m as [f h [i [a] p]].
  unfold wf_message, wf_peer, is_uint8, is_dht_id, is_uint32, is_uint16, RING_SIZE.
  cbn [flags hash msg_peer id ip s_addr port]. intros (Hf & Hh & Hi & Ha & Hp).
  unfold dht_message_bytes, dht_serialize, dht_deserialize, peer_bytes, ntohs, ntohl.
  cbn [flags hash msg_peer id ip s_addr port].
  rewrite !le_bytes_bswap. cbn [le_bytes rev app].
  repeat (f_equal; try (Z.div_mod_to_equations; lia)).
Qed.

Lemma wire_format_witness :
  wf_message (lookup_for 258 peer_A) /\
  dht_message_bytes (dht_serialize (lookup_for 258 peer_A)) =
  [0; 1; 2; 3; 232; 127; 0; 0; 1; 19; 137].
Proof.
  assert (Hm : wf_message (lookup_for 258 peer_A)).
  { destruct node_peers_wf as (_ & _ & _ & Ha & _).
    apply lookup_for_wf; [exact Ha | unfold is_dht_id, RING_SIZE; lia]. }
  split; [exact Hm|].
  exact (wire_format (lookup_for 258 peer_A) Hm).
Defined.

Lemma dht_message_of_bytes_bytes (m : dht_message) :
  wf_message m -> dht_message_of_bytes (dht_message_bytes m) = m.
Proof.
  destruct m as [f h [i [a] p]].
  unfold wf_message, wf_peer, is_uint8, is_dht_id, is_uint32, is_uint16, RING_SIZE.
  cbn [flags hash msg_peer id ip s_addr port]. intros (Hf & Hh & Hi & Ha & Hp).
  unfold dht_message_of_bytes, peer_of_bytes, dht_message_bytes, peer_bytes.
  cbn [flags hash msg_peer id ip s_addr port le_bytes app take drop le_value].
  repeat (f_equal; try (Z.div_mod_to_equations; lia)).
Qed.

Lemma recvfrom_whole (d buf : list Z) :
  List.length d = sizeof_dht_message -> List.length buf = sizeof_dht_message ->
  recvfrom (Some d) buf sizeof_dht_message = (d, 11).
Proof.
  intros Hd Hb. unfold recvfrom. rewrite Hd, Nat.min_id.
  rewrite take_ge, drop_ge, app_nil_r by lia. reflexivity.
Qed.

Lemma dht_recv_sent_datagram (m buf : dht_message) (w : world) :
  wf_message m ->
  dht_recv (Some (dht_message_bytes (dht_serialize m))) buf w = (Ok (m, 11), w).
Proof.
  intros Hm. unfold dht_recv.
  rewrite recvfrom_whole by apply dht_message_bytes_length.
  cbn [Z.ltb Z.compare]. unfold mret, M_ret.
  rewrite dht_message_of_bytes_bytes
    by (apply dht_deserialize_wf, Hm).
  unfold dht_serialize. now rewrite dht_deserialize_involutive.
Qed.

(** X5: [dht_recv] undoes [dht_send]: when the datagram on the socket is
    the buffer [dht_send] passed to [sendto] for a message [m], [dht_recv]
    leaves [m] in the caller's buffer, whatever that buffer held, and
    returns 11; the state is not touched. *)
Theorem dht_recv_of_sent (m buf : dht_message) (w : world) :
  wf_message m ->
  dht_recv (Some (dht_message_bytes (dht_serialize m))) buf w = (Ok (m, 11), w).
Proof. exact (dht_recv_sent_datagram m buf w). Qed.

Lemma dht_recv_of_sent_witness :
  wf_message odd_message /\
  dht_recv (Some (dht_message_bytes (dht_serialize odd_message))) zero_message
    (boot_world boot_time) = (Ok (odd_message, 11), boot_world boot_time).
Proof.
  split; [exact odd_message_wf|].
  exact (dht_recv_of_sent odd_message zero_message (boot_world boot_time) odd_message_wf).
Defined.

Lemma dht_handle_socket_sent_datagram (m : dht_message) (w : world) :
  wf_message m ->
  dht_handle_socket (Some (dht_message_bytes (dht_serialize m))) w =
  dht_process_message m w.
Proof.
  intros Hm. unfold dht_handle_socket.
  now rewrite (bind_Ok _ _ _ _ _ (dht_recv_sent_datagram m zero_message w Hm)).
Qed.

(** X6: receiving what [dht_send] sent is processing the message itself:
    on the datagram [dht_send] builds for [m], [dht_handle_socket] behaves
    as [dht_process_message m]. *)
Theorem dht_handle_socket_of_sent (m : dht_message) (w : world) :
  wf_message m ->
  dht_handle_socket (Some (dht_message_bytes (dht_serialize m))) w =
  dht_process_message m w.
Proof. exact (dht_handle_socket_sent_datagram m w). Qed.

Lemma dht_handle_socket_of_sent_witness :
  wf_message odd_message /\
  dht_handle_socket (Some (dht_message_bytes (dht_serialize odd_message)))
    (boot_world boot_time) =
  (Ok tt, set_stdout [invalid_message_text] (boot_world boot_time)).
Proof.
  split; [exact odd_message_wf|].
  exact (dht_handle_socket_of_sent odd_message (boot_world boot_time) odd_message_wf).
Defined.

Lemma recvfrom_zero_buffer (d : list Z) :
  fst (recvfrom (Some d) (dht_message_bytes zero_message) sizeof_dht_message) =
  take sizeof_dht_message (d ++ replicate sizeof_dht_message 0).
Proof.
  unfold recvfrom. cbn [fst].
  change (dht_message_bytes zero_message) with (replicate sizeof_dht_message 0).
  destruct (Nat.le_gt_cases sizeof_dht_message (List.length d)) as [Hlong|Hshort].
  - rewrite Nat.min_r by exact Hlong.
    rewrite drop_ge by (rewrite length_replicate; lia).
    now rewrite app_nil_r, take_app_le by exact Hlong.
  - rewrite Nat.min_l by lia.
    rewrite take_ge by lia. rewrite take_app, (take_ge d) by lia.
    now rewrite drop_replicate, take_replicate, Nat.min_l by lia.
Qed.

Lemma dht_handle_socket_run (d : list Z) (w : world) :
  dht_handle_socket (Some d) w =
  dht_process_message
    (dht_deserialize
       (dht_message_of_bytes (take sizeof_dht_message (d ++ replicate sizeof_dht_message 0))))
    w.
Proof.
  unfold dht_handle_socket, dht_recv.
  pose proof (recvfrom_zero_buffer d) as Hbuf.
  destruct (recvfrom (Some d) _ _) as [buf result] eqn:E. cbn [fst] in Hbuf. subst buf.
  assert (Hres : (result <? 0) = false).
  { unfold recvfrom in E. injection E as _ <-. apply Z.ltb_ge. lia. }
  rewrite Hres. reflexivity.
Qed.

(** X7: the length of a datagram is not checked.  [dht_handle_socket]
    processes the message read from the first 11 bytes of the datagram,
    bytes that a shorter datagram lacks reading as zero; an empty datagram
    is therefore processed as a LOOKUP for identifier 0 from the all-zero
    peer.  Only a failing [recvfrom] stops it: "recv" is reported and the
    process ends with status 1 before any message is processed. *)
Theorem dht_handle_socket_any_length (d : list Z) (w : world) :
  dht_handle_socket (Some d) w =
    dht_process_message
      (dht_deserialize
         (dht_message_of_bytes (take sizeof_dht_message (d ++ replicate sizeof_dht_message 0))))
      w /\
  dht_handle_socket (Some []) w = process_lookup (lookup_for 0 zero_peer) w /\
  dht_handle_socket None w = (Exited 1, set_stderr (stderr w ++ ["recv"%string]) w).
Proof.
  split; [apply dht_handle_socket_run | split; [|reflexivity]].
  rewrite dht_handle_socket_run. reflexivity.
Qed.

(** ** What [process_reply] does to the table, whatever the clock *)

Lemma process_reply_refresh_any (reply : dht_message) (n : nat) :
  forall (i : nat) (w : world),
  wf_peer (msg_peer reply) -> Forall wf_slot (lookup_cache w) ->
  (i + n <= List.length (lookup_cache w))%nat ->
  (exists (j m : nat),
     (j < i + n)%nat /\ (clock_calls w <= m)%nat /\
     process_reply_refresh reply n i w =
     (Ok true,
      set_lookup_cache
        (<[j := mk_cache_slot (clock w m) (hash reply) (msg_peer reply)]> (lookup_cache w))
        (set_clock_calls (S m) w)))
  \/ process_reply_refresh reply n i w = (Ok false, set_clock_calls (clock_calls w + n) w).
Proof.
  induction n as [|n IH]; intros i w Hr Hall Hlen.
  - right. cbn [process_reply_refresh]. unfold mret, M_ret.
    now rewrite Nat.add_0_r, world_eta.
  - rewrite process_reply_refresh_S.
    destruct (lookup_lt_is_Some_2 (lookup_cache w) i) as [e E]; [lia|].
    rewrite E. cbv zeta.
    pose proof (Forall_lookup_1 _ _ _ _ Hall E) as (_ & _ & He).
    destruct (memcmp _ _ _ =? 0) eqn:Hcmp; cbn [andb].
    + destruct (entry e <? _).
      * left. exists i, (S (clock_calls w)).
        split; [lia | split; [lia|]].
        apply (memcmp_peer _ _ He Hr) in Hcmp. now rewrite Hcmp.
      * destruct (IH (S i) (set_clock_calls (S (clock_calls w)) w) Hr Hall)
          as [(j & m & Hj & Hm & Hrun) | Hrun]; [cbn [lookup_cache set_clock_calls]; lia | |].
        -- left. exists j, m. cbn [clock_calls set_clock_calls] in Hm.
           split; [lia | split; [lia | exact Hrun]].
        -- right. rewrite Hrun. cbn [clock_calls set_clock_calls].
           now replace (S (clock_calls w) + n)%nat with (clock_calls w + S n)%nat by lia.
    + destruct (IH (S i) (set_clock_calls (S (clock_calls w)) w) Hr Hall)
        as [(j & m & Hj & Hm & Hrun) | Hrun]; [cbn [lookup_cache set_clock_calls]; lia | |].
      * left. exists j, m. cbn [clock_calls set_clock_calls] in Hm.
        split; [lia | split; [lia | exact Hrun]].
      * right. rewrite Hrun. cbn [clock_calls set_clock_calls].
        now replace (S (clock_calls w) + n)%nat with (clock_calls w + S n)%nat by lia.
Qed.

Lemma process_reply_evict_writes (reply : dht_message) (r : nat) (w : world) (e : cache_slot) :
  lookup_cache w !! r = Some e ->
  (time_ms ≫= fun t =>
   cache_write r (fun s => mk_cache_slot t (slot_predecessor s) (slot_peer s)) ≫= fun _ =>
   cache_write r (fun s => mk_cache_slot (entry s) (hash reply) (slot_peer s)) ≫= fun _ =>
   cache_write r (fun s => mk_cache_slot (entry s) (slot_predecessor s) (msg_peer reply))) w =
  (Ok tt,
   set_lookup_cache
     (<[r := mk_cache_slot (clock w (clock_calls w)) (hash reply) (msg_peer reply)]>
        (lookup_cache w))
     (set_clock_calls (S (clock_calls w)) w)).
Proof.
  intros E.
  rewrite (bind_Ok _ _ _ _ _ (time_ms_run w)).
  set (w2 := set_clock_calls (S (clock_calls w)) w).
  assert (E2 : lookup_cache w2 !! r = Some e) by exact E.
  rewrite (bind_Ok _ _ _ _ _ (cache_write_Some _ _ _ _ E2)).
  rewrite (bind_Ok _ _ _ _ _ (cache_write_Some _ _ _ _ (lookup_after_write _ _ _ _ E2))).
  set (w3 := set_lookup_cache _ w2).
  assert (E3 : lookup_cache w3 !! r =
               Some (mk_cache_slot (clock w (clock_calls w)) (slot_predecessor e) (slot_peer e))).
  { unfold w3. eapply lookup_after_write, E2. }
  set (w4 := set_lookup_cache _ w3).
  assert (E4 : lookup_cache w4 !! r =
               Some (mk_cache_slot (clock w (clock_calls w)) (hash reply) (slot_peer e))).
  { unfold w4. eapply lookup_after_write, E3. }
  rewrite (cache_write_Some _ _ _ _ E4). f_equal.
  unfold w4, w3, w2.
  cbn [lookup_cache set_lookup_cache set_clock_calls clock_calls entry slot_predecessor
       slot_peer predecessor self successor clock sendto_status sent stdout stderr].
  now rewrite !list_insert_insert_eq.
Qed.

Lemma process_reply_evict_run (reply : dht_message) (w w1 : world) (r : nat) (e : cache_slot) :
  process_reply_refresh reply LOOKUP_CACHE_ENTRIES 0 w = (Ok false, w1) ->
  process_reply_oldest ULONG_MAX LOOKUP_CACHE_ENTRIES 0 0 w1 = (Ok r, w1) ->
  lookup_cache w1 !! r = Some e ->
  process_reply reply w =
  (Ok tt,
   set_lookup_cache
     (<[r := mk_cache_slot (clock w1 (clock_calls w1)) (hash reply) (msg_peer reply)]>
        (lookup_cache w1))
     (set_clock_calls (S (clock_calls w1)) w1)).
Proof.
  intros Hrun Hold E. unfold process_reply.
  rewrite (bind_Ok _ _ _ _ _ Hrun). cbv zeta.
  rewrite (bind_Ok _ _ _ _ _ Hold).
  apply (process_reply_evict_writes reply r w1 e E).
Qed.

Lemma process_reply_one_slot (w : world) (reply : dht_message) :
  wf_world w -> wf_message reply ->
  exists (j m k : nat),
    (j < LOOKUP_CACHE_ENTRIES)%nat /\ (clock_calls w <= m < k)%nat /\
    process_reply reply w =
    (Ok tt,
     set_lookup_cache
       (<[j := mk_cache_slot (clock w m) (hash reply) (msg_peer reply)]> (lookup_cache w))
       (set_clock_calls k w)).
Proof.
  intros Hwf (_ & _ & Hr). pose proof Hwf as (_ & _ & _ & Hlen & Hall).
  destruct (process_reply_refresh_any reply LOOKUP_CACHE_ENTRIES 0 w Hr Hall)
    as [(j & m & Hj & Hm & Hrun) | Hrun]; [lia | |].
  - exists j, m, (S m). split; [lia | split; [lia|]].
    unfold process_reply. now rewrite (bind_Ok _ _ _ _ _ Hrun).
  - set (w1 := set_clock_calls (clock_calls w + LOOKUP_CACHE_ENTRIES) w) in *.
    destruct (process_reply_oldest_last ULONG_MAX LOOKUP_CACHE_ENTRIES 0 0 w1)
      as (r & Hold & Hlast); [unfold w1; cbn [lookup_cache set_clock_calls]; lia|].
    assert (Hr30 : (r < LOOKUP_CACHE_ENTRIES)%nat).
    { destruct Hlast as [[-> _] | (e1 & Hr1 & _)]; [unfold LOOKUP_CACHE_ENTRIES|]; lia. }
    destruct (lookup_lt_is_Some_2 (lookup_cache w1) r) as [e E];
      [unfold w1; cbn [lookup_cache set_clock_calls]; lia|].
    exists r, (clock_calls w + LOOKUP_CACHE_ENTRIES)%nat,
           (S (clock_calls w + LOOKUP_CACHE_ENTRIES)).
    split; [exact Hr30 | split; [lia|]].
    exact (process_reply_evict_run reply w w1 r e Hrun Hold E).
Qed.

(** X8: in a well-formed state [process_reply] always returns, and it
    changes exactly one slot of the table: that slot then holds the REPLY's
    peer, the REPLY's [hash] as predecessor id and a reading of the clock
    taken during the call.  Nothing is sent and nothing else is written. *)
Theorem process_reply_stores (w : world) (reply : dht_message) :
  wf_world w -> wf_message reply ->
  exists (j m k : nat),
    (j < LOOKUP_CACHE_ENTRIES)%nat /\ (clock_calls w <= m < k)%nat /\
    process_reply reply w =
    (Ok tt,
     set_lookup_cache
       (<[j := mk_cache_slot (clock w m) (hash reply) (msg_peer reply)]> (lookup_cache w))
       (set_clock_calls k w)).
Proof. exact (process_reply_one_slot w reply). Qed.

Lemma process_reply_stores_witness :
  wf_world (boot_world boot_time) /\ wf_message (reply_from peer_A 900) /\
  exists (j m k : nat),
    (j < LOOKUP_CACHE_ENTRIES)%nat /\
    process_reply (reply_from peer_A 900) (boot_world boot_time) =
    (Ok tt,
     set_lookup_cache
       (<[j := mk_cache_slot (clock (boot_world boot_time) m) 900 peer_A]>
          (lookup_cache (boot_world boot_time)))
       (set_clock_calls k (boot_world boot_time))).
Proof.
  assert (Hm : wf_message (reply_from peer_A 900)).
  { destruct node_peers_wf as (_ & _ & _ & Ha & _).
    apply reply_from_wf; [exact Ha | unfold is_dht_id, RING_SIZE; lia]. }
  split; [apply boot_world_wf | split; [exact Hm|]].
  destruct (process_reply_stores (boot_world boot_time) (reply_from peer_A 900)
              (boot_world_wf _) Hm) as (j & m & k & Hj & _ & Hrun).
  exists j, m, k. split; [exact Hj | exact Hrun].
Defined.

(** ** Safety of message processing *)

Lemma dht_send_run (msg : dht_message) (p : peer) (w : world) :
  exists (o : outcome unit) (err : list string),
    dht_send msg p w =
    (o, mk_world (predecessor w) (self w) (successor w) (lookup_cache w) (clock w)
          (clock_calls w) (sendto_status w)
          (sent w ++ [(dht_serialize msg, peer_to_sockaddr p)]) (stdout w) err) /\
    o = (if sendto_status w (List.length (sent w)) =? -1 then Exited 1 else Ok tt) /\
    err = (if sendto_status w (List.length (sent w)) =? -1
           then stderr w ++ ["sendto"%string] else stderr w).
Proof.
  unfold dht_send, sendto, perror, modify, exit, mbind, M_bind, mret, M_ret.
  destruct (_ =? -1); eauto.
Qed.

Lemma process_lookup_world (lookup : dht_message) (w : world) :
  wf_world w ->
  exists (o : outcome unit) (k : nat) (d : dht_message * sockaddr_in) (err : list string),
    process_lookup lookup w =
    (o, mk_world (predecessor w) (self w) (successor w) (lookup_cache w) (clock w)
          k (sendto_status w) (sent w ++ [d]) (stdout w) err) /\
    o <> Fault.
Proof.
  intros Hwf. pose proof Hwf as (_ & _ & Hsucc & _).
  destruct (dht_responsible_total (hash lookup) w Hwf) as (owner & k & Hrun & Hown).
  assert (Hcmp : exists same : bool,
            peer_cmp addr_successor owner (set_clock_calls k w) =
            (Ok same, set_clock_calls k w)).
  { destruct Hown as [->|(x & Hp & Hx)].
    - exists false. apply peer_cmp_NULL_r.
    - destruct (peer_cmp_successor owner (set_clock_calls k w) x Hp Hx Hsucc) as (b & Hb & _).
      now exists b. }
  destruct Hcmp as (same & Hcmp).
  rewrite (process_lookup_run lookup w _ owner same Hrun Hcmp).
  destruct same.
  - destruct (dht_send_run
                {| flags := REPLY; hash := id (self (set_clock_calls k w));
                   msg_peer := successor (set_clock_calls k w) |}
                (msg_peer lookup) (set_clock_calls k w)) as (o & err & Hs & -> & _).
    rewrite Hs. eexists _, k, _, err. split; [reflexivity | now destruct (_ =? -1)].
  - destruct (dht_send_run lookup (successor (set_clock_calls k w)) (set_clock_calls k w))
      as (o & err & Hs & -> & _).
    rewrite Hs. eexists _, k, _, err. split; [reflexivity | now destruct (_ =? -1)].
Qed.

Lemma dht_process_message_invariant (w : world) (msg : dht_message) :
  wf_world w -> wf_message msg -> clock_in_range w ->
  fst (dht_process_message msg w) <> Fault /\
  wf_world (snd (dht_process_message msg w)) /\
  clock_in_range (snd (dht_process_message msg w)) /\
  predecessor (snd (dht_process_message msg w)) = predecessor w /\
  self (snd (dht_process_message msg w)) = self w /\
  successor (snd (dht_process_message msg w)) = successor w /\
  (sent (snd (dht_process_message msg w)) = sent w \/
   exists d, sent (snd (dht_process_message msg w)) = sent w ++ [d]).
Proof.
  intros Hwf Hm Hclk. unfold dht_process_message.
  destruct (flags msg =? LOOKUP); [|destruct (flags msg =? REPLY)].
  - destruct (process_lookup_world msg w Hwf) as (o & k & d & err & -> & Ho).
    cbn [fst snd]. split; [exact Ho|].
    split; [exact Hwf | split; [exact Hclk|]].
    do 3 (split; [reflexivity|]). right. now exists d.
  - destruct (process_reply_one_slot w msg Hwf Hm) as (j & m & k & Hj & _ & ->).
    cbn [fst snd]. split; [discriminate|]. split; [|split; [exact Hclk|]].
    + destruct Hwf as (Hp & Hs & Hn & Hlen & Hall). destruct Hm as (_ & Hh & Hr).
      unfold wf_world. cbn [predecessor self successor lookup_cache set_lookup_cache
                            set_clock_calls].
      rewrite length_insert.
      do 4 (split; [assumption|]).
      apply Forall_insert; [exact Hall|].
      split; [apply Hclk | split; [exact Hh | exact Hr]].
    + do 3 (split; [reflexivity|]). now left.
  - cbn [fst snd]. split; [discriminate|].
    split; [exact Hwf | split; [exact Hclk|]].
    do 3 (split; [reflexivity|]). now left.
Qed.

(** X9: [dht_process_message] keeps a well-formed node well formed.
    Whatever the message, it never reads or writes outside [lookup_cache]
    or through a null pointer; the table keeps its 30 well-formed slots;
    [predecessor], [self] and [successor] are never written; and at most one
    datagram is sent. *)
Theorem dht_process_message_safe (w : world) (msg : dht_message) :
  wf_world w -> wf_message msg -> clock_in_range w ->
  fst (dht_process_message msg w) <> Fault /\
  wf_world (snd (dht_process_message msg w)) /\
  clock_in_range (snd (dht_process_message msg w)) /\
  predecessor (snd (dht_process_message msg w)) = predecessor w /\
  self (snd (dht_process_message msg w)) = self w /\
  successor (snd (dht_process_message msg w)) = successor w /\
  (sent (snd (dht_process_message msg w)) = sent w \/
   exists d, sent (snd (dht_process_message msg w)) = sent w ++ [d]).
Proof. exact (dht_process_message_invariant w msg). Qed.

Lemma boot_world_clock (now : Z) : 0 <= now <= ULONG_MAX -> clock_in_range (boot_world now).
Proof. intros H n. exact H. Qed.

Lemma boot_time_range : 0 <= boot_time <= ULONG_MAX.
Proof. unfold boot_time, ULONG_MAX. lia. Qed.

Lemma dht_process_message_safe_witness :
  wf_world (boot_world boot_time) /\ wf_message (reply_from peer_A 900) /\
  clock_in_range (boot_world boot_time) /\
  fst (dht_process_message (reply_from peer_A 900) (boot_world boot_time)) <> Fault /\
  wf_world (snd (dht_process_message (reply_from peer_A 900) (boot_world boot_time))).
Proof.
  assert (Hm : wf_message (reply_from peer_A 900)).
  { destruct node_peers_wf as (_ & _ & _ & Ha & _).
    apply reply_from_wf; [exact Ha | unfold is_dht_id, RING_SIZE; lia]. }
  pose proof (boot_world_clock boot_time boot_time_range) as Hc.
  split; [apply boot_world_wf | split; [exact Hm | split; [exact Hc|]]].
  destruct (dht_process_message_safe (boot_world boot_time) (reply_from peer_A 900)
              (boot_world_wf _) Hm Hc) as (H1 & H2 & _).
  split; [exact H1 | exact H2].
Defined.

Lemma le_value_byte (bs : list Z) : Forall is_uint8 bs -> is_uint8 (le_value (take 1 bs)).
Proof.
  intros H. destruct H as [|b rest Hb _]; cbn [take le_value].
  - unfold is_uint8. lia.
  - unfold is_uint8 in *. rewrite take_0. cbn [le_value]. lia.
Qed.

Lemma received_message_wf (d : list Z) :
  Forall is_uint8 d ->
  wf_message
    (dht_deserialize
       (dht_message_of_bytes (take sizeof_dht_message (d ++ replicate sizeof_dht_message 0)))).
Proof.
  intros Hd. apply dht_deserialize_wf. cbn [flags dht_message_of_bytes].
  apply le_value_byte, Forall_take, Forall_app. split; [exact Hd|].
  apply Forall_replicate. unfold is_uint8. lia.
Qed.

(** X10: no datagram can corrupt the node.  Whatever bytes arrive, of
    whatever length, [dht_handle_socket] never reads or writes outside
    [lookup_cache] or through a null pointer, leaves the node well formed
    and leaves [predecessor], [self] and [successor] as they were. *)
Theorem dht_handle_socket_safe (w : world) (d : list Z) :
  wf_world w -> clock_in_range w -> Forall is_uint8 d ->
  fst (dht_handle_socket (Some d) w) <> Fault /\
  wf_world (snd (dht_handle_socket (Some d) w)) /\
  predecessor (snd (dht_handle_socket (Some d) w)) = predecessor w /\
  self (snd (dht_handle_socket (Some d) w)) = self w /\
  successor (snd (dht_handle_socket (Some d) w)) = successor w.
Proof.
  intros Hwf Hclk Hd.
  rewrite dht_handle_socket_run.
  destruct (dht_process_message_invariant w _ Hwf (received_message_wf d Hd) Hclk)
    as (H1 & H2 & _ & H4 & H5 & H6 & _).
  auto.
Qed.

Lemma dht_handle_socket_safe_witness :
  wf_world (boot_world boot_time) /\ clock_in_range (boot_world boot_time) /\
  Forall is_uint8 [1; 255; 7] /\
  fst (dht_handle_socket (Some [1; 255; 7]) (boot_world boot_time)) <> Fault /\
  wf_world (snd (dht_handle_socket (Some [1; 255; 7]) (boot_world boot_time))).
Proof.
  pose proof (boot_world_clock boot_time boot_time_range) as Hc.
  assert (Hd : Forall is_uint8 [1; 255; 7]) by (repeat constructor; unfold is_uint8; lia).
  split; [apply boot_world_wf | split; [exact Hc | split; [exact Hd|]]].
  destruct (dht_handle_socket_safe (boot_world boot_time) [1; 255; 7]
              (boot_world_wf _) Hc Hd) as (H1 & H2 & _).
  split; [exact H1 | exact H2].
Defined.

(** ** Peer comparison *)

(** X11: on two peers that exist, [peer_cmp] compares the 8 bytes of the
    packed structs and answers true exactly when [id], [ip] and [port] all
    agree; it changes nothing. *)
Theorem peer_cmp_fieldwise (x y : peer) (w : world) :
  wf_peer x -> wf_peer y ->
  exists b : bool,
    peer_cmp (addr_local x) (addr_local y) w = (Ok b, w) /\
    (b = true <-> id x = id y /\ s_addr (ip x) = s_addr (ip y) /\ port x = port y).
Proof.
  intros Hx Hy.
  exists (memcmp (peer_bytes x) (peer_bytes y) sizeof_peer =? 0).
  split; [reflexivity|]. rewrite (memcmp_peer x y Hx Hy).
  destruct x as [xi [xa] xp], y as [yi [ya] yp]. cbn [id ip s_addr port].
  split; [intros E; injection E; auto | intros (-> & -> & ->); reflexivity].
Qed.

Lemma peer_cmp_fieldwise_witness :
  wf_peer peer_A /\ wf_peer peer_B /\
  peer_cmp (addr_local peer_A) (addr_local peer_B) (boot_world boot_time) =
    (Ok false, boot_world boot_time).
Proof.
  destruct node_peers_wf as (_ & _ & _ & Ha & Hb).
  split; [exact Ha | split; [exact Hb|]].
  destruct (peer_cmp_fieldwise peer_A peer_B (boot_world boot_time) Ha Hb) as (b & Hrun & Hiff).
  destruct b; [|exact Hrun].
  destruct (proj1 Hiff eq_refl) as (Hid & _). discriminate Hid.
Defined.

(** ** Sending *)

(** X12: [dht_lookup id] hands one datagram to [sendto], addressed to
    [successor]; a node that receives it processes the LOOKUP for [id]
    with [self] as originator.  The call ends the process with status 1
    when [sendto] returns -1 and returns otherwise; the table is not
    touched. *)
Theorem dht_lookup_sends (w w_recv : world) (id0 : Z) :
  wf_peer (self w) -> is_dht_id id0 ->
  sent (snd (dht_lookup id0 w)) =
    sent w ++ [(dht_serialize (lookup_for id0 (self w)), peer_to_sockaddr (successor w))] /\
  fst (dht_lookup id0 w) =
    (if sendto_status w (List.length (sent w)) =? -1 then Exited 1 else Ok tt) /\
  lookup_cache (snd (dht_lookup id0 w)) = lookup_cache w /\
  dht_handle_socket (Some (dht_message_bytes (dht_serialize (lookup_for id0 (self w))))) w_recv =
    process_lookup (lookup_for id0 (self w)) w_recv.
Proof.
  intros Hs Hi.
  assert (E : dht_lookup id0 w = dht_send (lookup_for id0 (self w)) (successor w) w)
    by reflexivity.
  rewrite E.
  destruct (dht_send_run (lookup_for id0 (self w)) (successor w) w) as (o & err & -> & -> & _).
  cbn [fst snd sent lookup_cache].
  do 3 (split; [reflexivity|]).
  rewrite dht_handle_socket_sent_datagram; [reflexivity|].
  apply lookup_for_wf; assumption.
Qed.

Lemma dht_lookup_sends_witness :
  wf_peer (self (boot_world boot_time)) /\ is_dht_id 400 /\
  sent (snd (dht_lookup 400 (boot_world boot_time))) =
    [(dht_serialize (lookup_for 400 node_self), peer_to_sockaddr node_succ)].
Proof.
  destruct node_peers_wf as (_ & Hs & _).
  assert (Hi : is_dht_id 400) by (unfold is_dht_id, RING_SIZE; lia).
  split; [exact Hs | split; [exact Hi|]].
  exact (proj1 (dht_lookup_sends (boot_world boot_time) (boot_world boot_time) 400 Hs Hi)).
Defined.

(** X13: [send_join p] hands one datagram to [sendto], addressed to [p],
    carrying JOIN, hash 0 and [self].  A node running this code that
    receives it does not act on it: the message is reported as invalid and
    dropped, nothing is sent back and no state changes. *)
Theorem send_join_is_dropped (w w_recv : world) (p : peer) :
  wf_peer (self w) ->
  sent (snd (send_join p w)) =
    sent w ++ [(dht_serialize {| flags := JOIN; hash := 0; msg_peer := self w |},
                peer_to_sockaddr p)] /\
  fst (send_join p w) =
    (if sendto_status w (List.length (sent w)) =? -1 then Exited 1 else Ok tt) /\
  dht_handle_socket
    (Some (dht_message_bytes (dht_serialize {| flags := JOIN; hash := 0; msg_peer := self w |})))
    w_recv =
  (Ok tt, set_stdout (stdout w_recv ++ [invalid_message_text]) w_recv).
Proof.
  intros Hs.
  assert (E : send_join p w =
              dht_send {| flags := JOIN; hash := 0; msg_peer := self w |} p w)
    by reflexivity.
  rewrite E.
  destruct (dht_send_run {| flags := JOIN; hash := 0; msg_peer := self w |} p w)
    as (o & err & -> & -> & _).
  cbn [fst snd sent]. do 2 (split; [reflexivity|]).
  rewrite dht_handle_socket_sent_datagram; [reflexivity|].
  unfold wf_message, is_uint8, is_dht_id, RING_SIZE, JOIN. cbn [flags hash msg_peer].
  split; [lia | split; [lia | exact Hs]].
Qed.

Lemma send_join_is_dropped_witness :
  wf_peer (self (boot_world boot_time)) /\
  sent (snd (send_join peer_A (boot_world boot_time))) =
    [(dht_serialize {| flags := JOIN; hash := 0; msg_peer := node_self |},
      peer_to_sockaddr peer_A)].
Proof.
  destruct node_peers_wf as (_ & Hs & _).
  split; [exact Hs|].
  exact (proj1 (send_join_is_dropped (boot_world boot_time) (boot_world boot_time) peer_A Hs)).
Defined.

(** ** Resolution through the table *)

Lemma zero_slot_hit (now id0 : Z) :
  0 <= now <= ULONG_MAX -> (cache_hit now id0 zero_slot <-> now < 2000).
Proof.
  intros Hn. unfold cache_hit, zero_slot, zero_peer, LOOKUP_CACHE_VALIDIY_MS.
  cbn [entry slot_predecessor slot_peer id].
  rewrite Z.sub_0_r. unfold to_ulong. rewrite Z.mod_small by lia.
  unfold is_responsible. cbn [Z.eqb orb]. tauto.
Qed.

(** X14: a never-used slot claims every identifier, and only its age keeps
    it out of the answer.  With the zero-initialized table and neither
    [self] nor [successor] responsible, [dht_responsible] returns [NULL]
    when the clock reads 2000 ms or more, and the address of the all-zero
    peer of slot 0 when the clock reads less. *)
Theorem dht_responsible_empty_table (w : world) (now id0 : Z) :
  clock_steady now w -> 0 <= now <= ULONG_MAX ->
  lookup_cache w = replicate LOOKUP_CACHE_ENTRIES zero_slot ->
  is_responsible (id (predecessor w)) (id (self w)) id0 = false ->
  is_responsible (id (self w)) (id (successor w)) id0 = false ->
  fst (dht_responsible id0 w) = Ok (if now <? 2000 then addr_cache_peer 0 else NULL) /\
  pointee w (addr_cache_peer 0) = Some zero_peer.
Proof.
  intros Hs Hn Hc H1 H2. split; [|unfold pointee, load, mbind, M_bind, cache_read;
                                   rewrite Hc; reflexivity].
  rewrite dht_responsible_run, H1, H2.
  destruct (dht_responsible_scan_steady now id0 LOOKUP_CACHE_ENTRIES 0 w Hs)
    as (r & k & Hrun & _ & Hr); [rewrite Hc, length_replicate; lia|].
  rewrite Hrun. cbn [fst]. f_equal.
  assert (Hslot : forall j e, lookup_cache w !! j = Some e -> e = zero_slot).
  { intros j e E. rewrite Hc in E. now apply lookup_replicate in E as [-> _]. }
  destruct (Z.ltb_spec now 2000) as [Hyoung|Hold].
  - destruct Hr as [[_ Hall] | (j & e & -> & Hj & Ej & _ & Hfirst)].
    + exfalso. apply (Hall 0%nat zero_slot); [unfold LOOKUP_CACHE_ENTRIES; lia | |].
      * now rewrite Hc.
      * now apply zero_slot_hit.
    + destruct j as [|j]; [reflexivity|]. exfalso.
      apply (Hfirst 0%nat zero_slot); [lia | now rewrite Hc | now apply zero_slot_hit].
  - destruct Hr as [[-> _] | (j & e & _ & _ & Ej & Hhit & _)]; [reflexivity|].
    exfalso. rewrite (Hslot j e Ej) in Hhit. apply zero_slot_hit in Hhit; lia.
Qed.

Lemma dht_responsible_empty_table_witness :
  clock_steady 1500 (boot_world 1500) /\ 0 <= 1500 <= ULONG_MAX /\
  fst (dht_responsible 400 (boot_world 1500)) = Ok (addr_cache_peer 0).
Proof.
  assert (Hn : 0 <= 1500 <= ULONG_MAX) by (unfold ULONG_MAX; lia).
  split; [apply boot_world_steady | split; [exact Hn|]].
  exact (proj1 (dht_responsible_empty_table (boot_world 1500) 1500 400
                  (boot_world_steady _) Hn eq_refl eq_refl eq_refl)).
Defined.

(** X15: the eviction pass does not look for the oldest entry.  When no
    slot is refreshed, the REPLY is written into the last slot whose
    timestamp is below [ULONG_MAX], whatever the other timestamps are, and
    into slot 0 when no slot has such a timestamp; every other slot keeps
    its content. *)
Theorem process_reply_eviction_target (w : world) (reply : dht_message) (now : Z) :
  wf_world w -> wf_message reply -> clock_steady now w ->
  (forall (j : nat) (e : cache_slot),
     lookup_cache w !! j = Some e -> ~ refresh_hit now reply e) ->
  exists r : nat,
    process_reply reply w =
    (Ok tt,
     set_lookup_cache
       (<[r := mk_cache_slot now (hash reply) (msg_peer reply)]> (lookup_cache w))
       (set_clock_calls (clock_calls w + 31) w)) /\
    ((r = 0%nat /\
      forall j e, lookup_cache w !! j = Some e -> entry e = ULONG_MAX) \/
     (exists e, lookup_cache w !! r = Some e /\ entry e < ULONG_MAX /\
                forall j e', (r < j)%nat -> lookup_cache w !! j = Some e' ->
                             entry e' = ULONG_MAX)).
Proof.
  intros Hwf (_ & _ & Hr) Hs Hnone.
  pose proof Hwf as (_ & _ & _ & Hlen & Hall).
  destruct (process_reply_refresh_steady now reply LOOKUP_CACHE_ENTRIES 0 w Hs Hr Hall)
    as [(j & e0 & _ & Ej & Hhit0 & _) | (_ & Hrun)]; [rewrite Hlen; lia| |].
  { exfalso. exact (Hnone j e0 Ej Hhit0). }
  set (w1 := set_clock_calls (clock_calls w + LOOKUP_CACHE_ENTRIES) w) in *.
  destruct (process_reply_oldest_last ULONG_MAX LOOKUP_CACHE_ENTRIES 0 0 w1)
    as (r & Hold & Hlast); [unfold w1; cbn [lookup_cache set_clock_calls]; lia|].
  assert (Hr30 : (r < LOOKUP_CACHE_ENTRIES)%nat).
  { destruct Hlast as [[-> _] | (e1 & Hr1 & _)]; [unfold LOOKUP_CACHE_ENTRIES|]; lia. }
  destruct (lookup_lt_is_Some_2 (lookup_cache w1) r) as [e E];
    [unfold w1; cbn [lookup_cache set_clock_calls]; lia|].
  exists r. split.
  - rewrite (process_reply_evict_run reply w w1 r e Hrun Hold E).
    unfold w1. cbn [clock clock_calls lookup_cache set_clock_calls].
    rewrite (Hs (clock_calls w + LOOKUP_CACHE_ENTRIES)%nat) by lia.
    now replace (S (clock_calls w + LOOKUP_CACHE_ENTRIES)) with (clock_calls w + 31)%nat
      by (unfold LOOKUP_CACHE_ENTRIES; lia).
  - assert (Hmax : forall j e', lookup_cache w !! j = Some e' ->
                                ULONG_MAX <= entry e' -> entry e' = ULONG_MAX).
    { intros j e' Ej Hge. destruct (Forall_lookup_1 _ _ _ _ Hall Ej) as ((_ & Hle) & _). lia. }
    unfold w1 in Hlast. cbn [lookup_cache set_clock_calls] in Hlast.
    destruct Hlast as [[-> Hge] | (e1 & Hr1 & E1 & Hlt & Hafter)].
    + left. split; [reflexivity|]. intros j e' Ej. apply (Hmax j e' Ej).
      apply (Hge j e'); [|exact Ej]. apply lookup_lt_Some in Ej. lia.
    + right. exists e1. split; [exact E1 | split; [exact Hlt|]].
      intros j e' Hj Ej. apply (Hmax j e' Ej).
      apply (Hafter j e'); [|exact Ej]. apply lookup_lt_Some in Ej. lia.
Qed.

Lemma cache_A_last_wf : wf_world (world_with_cache (boot_time + 1000) cache_A_last).
Proof.
  apply world_with_cache_wf; [reflexivity|].
  unfold cache_A_last. apply Forall_app. split.
  - apply Forall_replicate, zero_slot_wf.
  - constructor; [|constructor].
    destruct node_peers_wf as (_ & _ & _ & Ha & _).
    unfold wf_slot, is_dht_id, RING_SIZE, ULONG_MAX, boot_time.
    cbn [entry slot_predecessor slot_peer]. split; [lia | split; [lia | exact Ha]].
Qed.

Lemma cache_A_last_no_hit :
  forall (j : nat) (e : cache_slot),
    lookup_cache (world_with_cache (boot_time + 1000) cache_A_last) !! j = Some e ->
    ~ refresh_hit (boot_time + 1000) (reply_from peer_B 1900) e.
Proof.
  intros j e E [Hp _]. apply list_elem_of_lookup_2 in E.
  cbn [world_with_cache lookup_cache set_lookup_cache] in E. unfold cache_A_last in E.
  rewrite elem_of_app, elem_of_replicate, list_elem_of_singleton in E.
  destruct E as [[-> _]| ->]; discriminate Hp.
Qed.

Lemma process_reply_eviction_target_witness :
  wf_world (world_with_cache (boot_time + 1000) cache_A_last) /\
  wf_message (reply_from peer_B 1900) /\
  clock_steady (boot_time + 1000) (world_with_cache (boot_time + 1000) cache_A_last) /\
  exists r : nat,
    process_reply (reply_from peer_B 1900) (world_with_cache (boot_time + 1000) cache_A_last) =
    (Ok tt,
     set_lookup_cache
       (<[r := mk_cache_slot (boot_time + 1000) 1900 peer_B]> cache_A_last)
       (set_clock_calls 31 (world_with_cache (boot_time + 1000) cache_A_last))).
Proof.
  assert (Hm : wf_message (reply_from peer_B 1900)).
  { destruct node_peers_wf as (_ & _ & _ & _ & Hb).
    apply reply_from_wf; [exact Hb | unfold is_dht_id, RING_SIZE; lia]. }
  split; [exact cache_A_last_wf | split; [exact Hm | split; [apply world_with_cache_steady|]]].
  destruct (process_reply_eviction_target _ (reply_from peer_B 1900) (boot_time + 1000)
              cache_A_last_wf Hm (world_with_cache_steady _ _) cache_A_last_no_hit)
    as (r & Hrun & _).
  exists r. exact Hrun.
Defined.

(** ** A REPLY makes an identifier resolvable *)

Lemma resolve_after_reply (w w' : world) (reply : dht_message) (now now' id0 : Z) :
  wf_world w -> wf_message reply -> clock_steady now w ->
  lookup_cache w' = lookup_cache (snd (process_reply reply w)) ->
  predecessor w' = predecessor w -> self w' = self w -> successor w' = successor w ->
  clock_steady now' w' ->
  is_responsible (id (predecessor w)) (id (self w)) id0 = false ->
  is_responsible (id (self w)) (id (successor w)) id0 = false ->
  is_responsible (hash reply) (id (msg_peer reply)) id0 = true ->
  (forall (i : nat) (e : cache_slot),
     lookup_cache w !! i = Some e -> ~ cache_hit now' id0 e) ->
  (to_ulong (now' - now) < 2000 ->
   exists j : nat,
     fst (dht_responsible id0 w') = Ok (addr_cache_peer j) /\
     pointee w' (addr_cache_peer j) = Some (msg_peer reply)) /\
  (2000 <= to_ulong (now' - now) -> fst (dht_responsible id0 w') = Ok NULL).
Proof.
  intros Hwf Hm Hs Hc Hp Hself Hsucc Hs' H1 H2 Hcover Hnone.
  pose proof Hwf as (_ & _ & _ & Hlen & _).
  destruct (process_reply_one_slot w reply Hwf Hm) as (j & m & k & Hj & Hmk & Hrun).
  rewrite Hrun in Hc. cbn [snd lookup_cache set_lookup_cache] in Hc.
  rewrite (Hs m) in Hc by lia.
  set (new := mk_cache_slot now (hash reply) (msg_peer reply)) in *.
  assert (Ej : lookup_cache w' !! j = Some new).
  { rewrite Hc. apply list_lookup_insert_eq. lia. }
  assert (Hother : forall j' e, j' <> j -> lookup_cache w' !! j' = Some e ->
                                ~ cache_hit now' id0 e).
  { intros j' e Hne E. rewrite Hc, list_lookup_insert_ne in E by congruence.
    exact (Hnone j' e E). }
  rewrite dht_responsible_run, Hp, Hself, Hsucc, H1, H2.
  destruct (dht_responsible_scan_steady now' id0 LOOKUP_CACHE_ENTRIES 0 w' Hs')
    as (r & k' & Hscan & _ & Hr); [rewrite Hc, length_insert; lia|].
  rewrite Hscan. cbn [fst]. split.
  - intros Hyoung.
    assert (Hhit : cache_hit now' id0 new) by (split; [exact Hcover | exact Hyoung]).
    destruct Hr as [[_ Hall] | (j' & e & -> & _ & E & Hhit' & _)].
    + exfalso. apply (Hall j new); [lia | exact Ej | exact Hhit].
    + destruct (decide (j' = j)) as [->|Hne].
      * exists j. split; [reflexivity|].
        unfold pointee, load, mbind, M_bind, cache_read. now rewrite Ej.
      * exfalso. exact (Hother j' e Hne E Hhit').
  - intros Hold.
    destruct Hr as [[-> _] | (j' & e & _ & _ & E & Hhit' & _)]; [reflexivity|].
    exfalso. destruct (decide (j' = j)) as [->|Hne].
    + rewrite Ej in E. injection E as <-. destruct Hhit' as [_ Hage].
      cbn [entry new] in Hage. unfold LOOKUP_CACHE_VALIDIY_MS in Hage. lia.
    + exact (Hother j' e Hne E Hhit').
Qed.


Lemma boot_cache_no_hit (now id0 : Z) :
  2000 <= now <= ULONG_MAX ->
  forall (i : nat) (e : cache_slot),
    lookup_cache (boot_world boot_time) !! i = Some e -> ~ cache_hit now id0 e.
Proof.
  intros Hn i e E Hhit. cbn [lookup_cache boot_world] in E.
  apply lookup_replicate in E as [-> _].
  apply zero_slot_hit in Hhit; lia.
Qed.




(** ** A lookup between two nodes *)

Lemma process_lookup_answers (w : world) (lookup : dht_message) :
  wf_world w ->
  is_responsible (id (predecessor w)) (id (self w)) (hash lookup) = false ->
  is_responsible (id (self w)) (id (successor w)) (hash lookup) = true ->
  process_lookup lookup w =
  dht_send {| flags := REPLY; hash := id (self w); msg_peer := successor w |}
    (msg_peer lookup) w.
Proof.
  intros Hwf H1 H2. pose proof Hwf as (_ & _ & Hsucc & _).
  assert (Hrun : dht_responsible (hash lookup) w = (Ok addr_successor, w))
    by (now rewrite dht_responsible_run, H1, H2).
  destruct (peer_cmp_successor addr_successor w (successor w) eq_refl Hsucc Hsucc)
    as (b & Hcmp & Hiff).
  assert (b = true) as -> by (now apply Hiff).
  now rewrite (process_lookup_run lookup w w addr_successor true Hrun Hcmp).
Qed.

Lemma dht_lookup_world (id0 : Z) (w : world) :
  exists (err : list string) (s : list (dht_message * sockaddr_in)),
    snd (dht_lookup id0 w) =
    mk_world (predecessor w) (self w) (successor w) (lookup_cache w) (clock w)
      (clock_calls w) (sendto_status w) s (stdout w) err.
Proof.
  assert (E : dht_lookup id0 w = dht_send (lookup_for id0 (self w)) (successor w) w)
    by reflexivity.
  rewrite E.
  destruct (dht_send_run (lookup_for id0 (self w)) (successor w) w) as (o & err & -> & _).
  now exists err, (sent w ++ [(dht_serialize (lookup_for id0 (self w)),
                               peer_to_sockaddr (successor w))]).
Qed.

(** X17: a lookup is answered in one round trip.  Node A, which cannot
    resolve [id], calls [dht_lookup id]; node B receives A's datagram, and
    B's [successor] is responsible for [id].  Then B sends exactly one
    datagram, to A's address, and when A receives that datagram,
    [dht_responsible id] at A returns the address of a slot that holds B's
    [successor]. *)
Theorem lookup_round_trip (wA wB : world) (now id0 : Z) :
  wf_world wA -> wf_world wB -> is_dht_id id0 -> clock_steady now wA ->
  is_responsible (id (predecessor wA)) (id (self wA)) id0 = false ->
  is_responsible (id (self wA)) (id (successor wA)) id0 = false ->
  (forall (i : nat) (e : cache_slot),
     lookup_cache wA !! i = Some e -> ~ cache_hit now id0 e) ->
  is_responsible (id (predecessor wB)) (id (self wB)) id0 = false ->
  is_responsible (id (self wB)) (id (successor wB)) id0 = true ->
  let request := dht_serialize (lookup_for id0 (self wA)) in
  let answer := dht_serialize (reply_from (successor wB) (id (self wB))) in
  let wA1 := snd (dht_lookup id0 wA) in
  let wB1 := snd (dht_handle_socket (Some (dht_message_bytes request)) wB) in
  let wA2 := snd (dht_handle_socket (Some (dht_message_bytes answer)) wA1) in
  sent wA1 = sent wA ++ [(request, peer_to_sockaddr (successor wA))] /\
  sent wB1 = sent wB ++ [(answer, peer_to_sockaddr (self wA))] /\
  exists j : nat,
    fst (dht_responsible id0 wA2) = Ok (addr_cache_peer j) /\
    pointee wA2 (addr_cache_peer j) = Some (successor wB).
Proof.
  intros HwfA HwfB Hid Hs HA1 HA2 Hnone HB1 HB2. cbv zeta.
  pose proof HwfA as (HpA & HsA & HnA & HlenA & HallA).
  pose proof HwfB as (HpB & HsB & HnB & _).
  assert (Hreq : wf_message (lookup_for id0 (self wA))) by (now apply lookup_for_wf).
  assert (Hans : wf_message (reply_from (successor wB) (id (self wB))))
    by (apply reply_from_wf; [exact HnB | apply HsB]).
  split; [|split].
  - assert (E : dht_lookup id0 wA = dht_send (lookup_for id0 (self wA)) (successor wA) wA)
      by reflexivity.
    rewrite E.
    now destruct (dht_send_run (lookup_for id0 (self wA)) (successor wA) wA)
      as (o & err & -> & _).
  - rewrite (dht_handle_socket_sent_datagram _ wB Hreq).
    unfold dht_process_message. cbn [flags lookup_for Z.eqb LOOKUP].
    rewrite (process_lookup_answers wB (lookup_for id0 (self wA)) HwfB HB1 HB2).
    now destruct (dht_send_run
                    {| flags := REPLY; hash := id (self wB); msg_peer := successor wB |}
                    (msg_peer (lookup_for id0 (self wA))) wB) as (o & err & -> & _).
  - destruct (dht_lookup_world id0 wA) as (err & s & HwA1).
    set (wA1 := snd (dht_lookup id0 wA)) in *.
    assert (HwfA1 : wf_world wA1) by (rewrite HwA1; exact HwfA).
    assert (HsA1 : clock_steady now wA1) by (rewrite HwA1; exact Hs).
    rewrite (dht_handle_socket_sent_datagram _ wA1 Hans).
    assert (Eproc : dht_process_message (reply_from (successor wB) (id (self wB))) wA1 =
                    process_reply (reply_from (successor wB) (id (self wB))) wA1)
      by reflexivity.
    rewrite Eproc.
    destruct (process_reply_one_slot wA1 _ HwfA1 Hans) as (j & m & k & Hj & Hmk & Hrun).
    assert (Hage : to_ulong (now - now) < 2000)
      by (rewrite Z.sub_diag; unfold to_ulong, ULONG_MAX; rewrite Z.mod_0_l; lia).
    refine (proj1 (resolve_after_reply wA1
                     (snd (process_reply (reply_from (successor wB) (id (self wB))) wA1))
                     (reply_from (successor wB) (id (self wB))) now now id0
                     HwfA1 Hans HsA1 eq_refl _ _ _ _ _ _ HB2 _) Hage);
      try (rewrite Hrun, HwA1; reflexivity);
      try (rewrite HwA1; assumption).
    rewrite Hrun. apply clock_steady_later; [exact HsA1 | lia].
Qed.

Lemma second_node_wf (now : Z) : wf_world (second_node now).
Proof.
  destruct node_peers_wf as (_ & Hs & Hn & _).
  unfold wf_world. cbn [second_node predecessor self successor lookup_cache].
  split; [exact Hs | split; [exact Hn | split; [|split]]].
  - unfold wf_peer, is_dht_id, is_uint32, is_uint16, RING_SIZE. simpl. lia.
  - apply length_replicate.
  - apply Forall_replicate, zero_slot_wf.
Qed.

Lemma two_nodes_400 :
  is_responsible (id (predecessor (boot_world boot_time))) (id (self (boot_world boot_time))) 400
    = false /\
  is_responsible (id (self (boot_world boot_time))) (id (successor (boot_world boot_time))) 400
    = false /\
  is_responsible (id (predecessor (second_node boot_time))) (id (self (second_node boot_time))) 400
    = false /\
  is_responsible (id (self (second_node boot_time))) (id (successor (second_node boot_time))) 400
    = true.
Proof. repeat split. Qed.

Lemma lookup_round_trip_witness :
  wf_world (boot_world boot_time) /\ wf_world (second_node boot_time) /\ is_dht_id 400 /\
  clock_steady boot_time (boot_world boot_time) /\
  sent (snd (dht_handle_socket
               (Some (dht_message_bytes
                        (dht_serialize (lookup_for 400 (self (boot_world boot_time))))))
               (second_node boot_time))) =
    sent (second_node boot_time) ++
    [(dht_serialize (reply_from (successor (second_node boot_time))
                       (id (self (second_node boot_time)))),
      peer_to_sockaddr (self (boot_world boot_time)))].
Proof.
  assert (Hi : is_dht_id 400) by (unfold is_dht_id, RING_SIZE; lia).
  assert (Hn : 2000 <= boot_time <= ULONG_MAX) by (unfold boot_time, ULONG_MAX; lia).
  destruct two_nodes_400 as (HA1 & HA2 & HB1 & HB2).
  split; [apply boot_world_wf | split; [apply second_node_wf | split; [exact Hi|]]].
  split; [apply boot_world_steady|].
  exact (proj1 (proj2 (lookup_round_trip (boot_world boot_time) (second_node boot_time)
                         boot_time 400
                         (boot_world_wf _) (second_node_wf _) Hi (boot_world_steady _)
                         HA1 HA2 (boot_cache_no_hit boot_time 400 Hn) HB1 HB2))).
Defined.

(** ** Addresses *)

(** X18: [peer_to_sockaddr] builds an [AF_INET] address whose port and IPv4
    address are stored most significant byte first; the peer's [id] plays
    no part, and two peers get the same address exactly when they agree on
    [ip] and [port]. *)
Theorem peer_to_sockaddr_network_order (p q : peer) :
  wf_peer p -> wf_peer q ->
  sin_family (peer_to_sockaddr p) = AF_INET /\
  le_bytes 2 (sin_port (peer_to_sockaddr p)) = [port p / 256; port p mod 256] /\
  le_bytes 4 (s_addr (sin_addr (peer_to_sockaddr p))) =
    [s_addr (ip p) / 16777216; (s_addr (ip p) / 65536) mod 256;
     (s_addr (ip p) / 256) mod 256; s_addr (ip p) mod 256] /\
  (peer_to_sockaddr p = peer_to_sockaddr q <->
   s_addr (ip p) = s_addr (ip q) /\ port p = port q).
Proof.
  destruct p as [pi [pa] pp], q as [qi [qa] qp].
  unfold wf_peer, is_dht_id, is_uint32, is_uint16, RING_SIZE.
  cbn [id ip s_addr port]. intros (_ & Hpa & Hpp) (_ & Hqa & Hqp).
  unfold peer_to_sockaddr, htons, htonl. cbn [sin_family sin_port sin_addr s_addr ip port].
  split; [reflexivity|]. rewrite !le_bytes_bswap. cbn [le_bytes rev app].
  split; [repeat (f_equal; try (Z.div_mod_to_equations; lia))|].
  split; [repeat (f_equal; try (Z.div_mod_to_equations; lia))|].
  split.
  - intros E. injection E as Ea Ep.
    apply (f_equal (bswap 4)) in Ea. apply (f_equal (bswap 2)) in Ep.
    rewrite !bswap_involutive in Ea, Ep by assumption. now split.
  - intros [-> ->]. reflexivity.
Qed.

Lemma peer_to_sockaddr_network_order_witness :
  wf_peer peer_A /\ wf_peer peer_B /\
  le_bytes 2 (sin_port (peer_to_sockaddr peer_A)) = [19; 137].
Proof.
  destruct node_peers_wf as (_ & _ & _ & Ha & Hb).
  split; [exact Ha | split; [exact Hb|]].
  exact (proj1 (proj2 (peer_to_sockaddr_network_order peer_A peer_B Ha Hb))).
Defined.

(** ** Resolution reads, it does not write *)

Lemma dht_responsible_scan_reads (id0 : Z) (n : nat) :
  forall (i : nat) (w : world) (r : outcome peer_ptr) (w1 : world),
  dht_responsible_scan id0 n i w = (r, w1) ->
  exists k : nat, (clock_calls w <= k <= clock_calls w + n)%nat /\ w1 = set_clock_calls k w.
Proof.
  induction n as [|n IH]; intros i w r w1 E.
  - injection E as _ <-. exists (clock_calls w). rewrite world_eta. split; [lia | reflexivity].
  - rewrite dht_responsible_scan_S in E.
    destruct (lookup_cache w !! i) as [e|].
    + destruct (is_responsible _ _ id0).
      * destruct (_ <=? _).
        -- apply IH in E as (k & Hk & ->). cbn [clock_calls set_clock_calls] in Hk.
           exists k. split; [lia | reflexivity].
        -- injection E as _ <-. exists (S (clock_calls w)). split; [lia | reflexivity].
      * apply IH in E as (k & Hk & ->). exists k. split; [lia | reflexivity].
    + injection E as _ <-. exists (clock_calls w). rewrite world_eta. split; [lia | reflexivity].
Qed.

(** X19: [dht_responsible] only reads.  In any state, it leaves the table,
    the three peers and the socket as they were; all it consumes is
    readings of the clock, at most one per slot of the table, and none at
    all when [self] or [successor] is responsible. *)
Theorem dht_responsible_read_only (id0 : Z) (w : world) :
  exists k : nat,
    snd (dht_responsible id0 w) = set_clock_calls k w /\
    (clock_calls w <= k <= clock_calls w + LOOKUP_CACHE_ENTRIES)%nat /\
    (is_responsible (id (predecessor w)) (id (self w)) id0 = true \/
     is_responsible (id (self w)) (id (successor w)) id0 = true ->
     k = clock_calls w).
Proof.
  rewrite dht_responsible_run.
  destruct (is_responsible (id (predecessor w)) (id (self w)) id0).
  { exists (clock_calls w). cbn [snd]. rewrite world_eta. repeat split; lia. }
  destruct (is_responsible (id (self w)) (id (successor w)) id0).
  { exists (clock_calls w). cbn [snd]. rewrite world_eta. repeat split; lia. }
  destruct (dht_responsible_scan id0 LOOKUP_CACHE_ENTRIES 0 w) as [r w1] eqn:E.
  destruct (dht_responsible_scan_reads id0 _ _ _ _ _ E) as (k & Hk & ->).
  exists k. cbn [snd]. split; [reflexivity | split; [exact Hk|]].
  intros [H|H]; discriminate H.
Qed.

(** ** How much of the table is used *)

(** X20: the zero-initialized table has only its last slot in use, and
    [process_reply], for a REPLY whose peer is not the all-zero peer and
    with a steady clock below [ULONG_MAX], keeps it so: slots 0 to 28 stay
    zero-initialized and the REPLY ends in slot 29, replacing what was
    there. *)
Theorem process_reply_keeps_one_slot (w : world) (reply : dht_message) (now : Z) :
  wf_world w -> wf_message reply -> msg_peer reply <> zero_peer ->
  clock_steady now w -> now < ULONG_MAX ->
  only_last_slot_used (lookup_cache w) ->
  only_last_slot_used (replicate LOOKUP_CACHE_ENTRIES zero_slot) /\
  only_last_slot_used (lookup_cache (snd (process_reply reply w))) /\
  exists t : Z,
    lookup_cache (snd (process_reply reply w)) !! 29%nat =
    Some (mk_cache_slot t (hash reply) (msg_peer reply)).
Proof.
  intros Hwf Hm Hnz Hs Hnow (Hzero & e29 & E29 & Hlt).
  split.
  { split.
    - intros j Hj. apply lookup_replicate_2. unfold LOOKUP_CACHE_ENTRIES. lia.
    - exists zero_slot. split; [reflexivity | unfold ULONG_MAX; cbn; lia]. }
  pose proof Hwf as (_ & _ & _ & Hlen & Hall). pose proof Hm as (_ & _ & Hr).
  assert (Hres : exists k,
            process_reply reply w =
            (Ok tt,
             set_lookup_cache
               (<[29%nat := mk_cache_slot now (hash reply) (msg_peer reply)]> (lookup_cache w))
               (set_clock_calls k w))).
  { destruct (process_reply_refresh_steady now reply LOOKUP_CACHE_ENTRIES 0 w Hs Hr Hall)
      as [(j & e & Hj & E & [Hpeer Hold] & _ & Hrun) | (Hnone & _)]; [rewrite Hlen; lia| |].
    - assert (j = 29%nat) as ->.
      { destruct (decide (j < 29)%nat) as [Hsmall|Hbig];
          [|unfold LOOKUP_CACHE_ENTRIES in Hj; lia].
        exfalso. rewrite (Hzero j Hsmall) in E. injection E as <-.
        apply Hnz. symmetry. exact Hpeer. }
      exists (clock_calls w + (29 - 0) + 2)%nat.
      unfold process_reply. rewrite (bind_Ok _ _ _ _ _ Hrun). now rewrite Hpeer.
    - exists (clock_calls w + 31)%nat.
      apply (process_reply_evicts_last_slot w reply now e29 Hwf Hr Hs); try assumption.
      intros j e E. apply (Hnone j e); [|exact E]. apply lookup_lt_Some in E. lia. }
  destruct Hres as (k & ->). cbn [snd lookup_cache set_lookup_cache].
  assert (H29 : (29 < List.length (lookup_cache w))%nat)
    by (rewrite Hlen; unfold LOOKUP_CACHE_ENTRIES; lia).
  split; [split|].
  - intros j Hj. rewrite list_lookup_insert_ne by lia. now apply Hzero.
  - eexists. split; [apply list_lookup_insert_eq; exact H29 | exact Hnow].
  - exists now. apply list_lookup_insert_eq. exact H29.
Qed.

Lemma process_reply_keeps_one_slot_witness :
  wf_world (boot_world boot_time) /\ wf_message (reply_from peer_A 900) /\
  peer_A <> zero_peer /\ boot_time < ULONG_MAX /\
  only_last_slot_used
    (lookup_cache (snd (process_reply (reply_from peer_A 900) (boot_world boot_time)))).
Proof.
  assert (Hm : wf_message (reply_from peer_A 900)).
  { destruct node_peers_wf as (_ & _ & _ & Ha & _).
    apply reply_from_wf; [exact Ha | unfold is_dht_id, RING_SIZE; lia]. }
  assert (Hnz : msg_peer (reply_from peer_A 900) <> zero_peer) by discriminate.
  assert (Hlt : boot_time < ULONG_MAX) by (unfold boot_time, ULONG_MAX; lia).
  assert (Hboot : only_last_slot_used (lookup_cache (boot_world boot_time))).
  { split.
    - intros j Hj. apply lookup_replicate_2. unfold LOOKUP_CACHE_ENTRIES. lia.
    - exists zero_slot. split; [reflexivity | unfold ULONG_MAX; cbn; lia]. }
  split; [apply boot_world_wf | split; [exact Hm | split; [exact Hnz | split; [exact Hlt|]]]].
  exact (proj1 (proj2 (process_reply_keeps_one_slot (boot_world boot_time)
                         (reply_from peer_A 900) boot_time
                         (boot_world_wf _) Hm Hnz (boot_world_steady _) Hlt Hboot))).
Defined.
